(** * The TamilBlasters auto-leech monitor ([bot/modules/auto_tbl.py])

    A shallow embedding of the module.  The pure helpers
    ([_sanitize_filename], the topic window of [_crawl_tbl_sync]) are
    functions on strings and lists.  The coroutines are computations of a
    state-and-exception monad [M] over the module's globals: [Ret] is a
    return, [Raise] a Python exception.  The collaborators (HTTP, Telegram,
    [_mirror_leech]) are a [World] of answers indexed by a clock, so that a
    call may fail at one time and succeed at the next; every call and log
    record is added to a trace.  [while True] is observed for a number of
    turns: [_tamilblasters_monitor n] returns when the loop is still running
    after [n] cycles and raises when an exception has left it.  A
    [cancel()] sets a flag on the task, which the next suspension point of
    the coroutine turns into [CancelledError].  Handlers and the monitor
    run one at a time, so what [async with _monitor_lock] protects is
    atomic here. *)

From Stdlib Require Import Ascii.
From stdpp Require Import gmap strings list pretty.

(** ** Python strings

    A [str] is modelled as a [string] (the UTF-8 bytes of the text).  The
    character class of [_sanitize_filename] is ASCII, so a run of code
    points outside it and the run of their bytes are replaced alike. *)

Module PyStr.

Definition in_range (lo hi : nat) (c : ascii) : bool :=
  (lo <=? nat_of_ascii c)%nat && (nat_of_ascii c <=? hi)%nat.

Definition eqc (a b : ascii) : bool := Ascii.eqb a b.

(** [str.lstrip(c)], [str.rstrip(c)] and [str.strip(c)] for a single
    character [c]. *)
Fixpoint lstrip (c : ascii) (s : string) : string :=
  match s with
  | "" => ""
  | String a s' => if eqc a c then lstrip c s' else s
  end.

Fixpoint rstrip (c : ascii) (s : string) : string :=
  match s with
  | "" => ""
  | String a s' =>
      let r := rstrip c s' in
      if eqc a c && String.eqb r "" then "" else String a r
  end.

Definition strip (c : ascii) (s : string) : string := rstrip c (lstrip c s).

(** [s.startswith(p)]. *)
Definition startswith (p s : string) : bool := String.prefix p s.

(** [p in s], also what [re.compile(p).search(s)] decides for a pattern
    [p] without metacharacters. *)
Fixpoint contains (p s : string) : bool :=
  String.prefix p s ||
  match s with
  | "" => false
  | String _ s' => contains p s'
  end.

(** Keep the characters that satisfy [keep]. *)
Fixpoint filter (keep : ascii → bool) (s : string) : string :=
  match s with
  | "" => ""
  | String a s' => if keep a then String a (filter keep s') else filter keep s'
  end.

Fixpoint all (p : ascii → bool) (s : string) : bool :=
  match s with
  | "" => true
  | String a s' => p a && all p s'
  end.

Definition first (s : string) : option ascii :=
  match s with "" => None | String a _ => Some a end.

Fixpoint last (s : string) : option ascii :=
  match s with
  | "" => None
  | String a "" => Some a
  | String _ s' => last s'
  end.

End PyStr.

(** ** [_sanitize_filename] *)

(** The complement of the class [[^0-9A-Za-z._-]]. *)
Definition safe_char (c : ascii) : bool :=
  PyStr.in_range 48 57 c || PyStr.in_range 65 90 c || PyStr.in_range 97 122 c
  || PyStr.eqc c "."%char || PyStr.eqc c "_"%char || PyStr.eqc c "-"%char.

(** [re.sub(r"[^0-9A-Za-z._-]+", "_", name)]: every maximal run of
    characters outside the class becomes one underscore.  [in_run] tells
    that the previous character belonged to such a run. *)
Fixpoint re_sub_unsafe (in_run : bool) (name : string) : string :=
  match name with
  | "" => ""
  | String c rest =>
      if safe_char c then String c (re_sub_unsafe false rest)
      else if in_run then re_sub_unsafe true rest
      else String "_"%char (re_sub_unsafe true rest)
  end.

Definition _sanitize_filename (name : string) : string :=
  if String.eqb name "" then "tbl_torrent.torrent"
  else
    let safe := PyStr.strip "_"%char (re_sub_unsafe false name) in
    (if String.eqb safe "" then "tbl_torrent" else safe) +:+ ".torrent".

(** The reading "strip the characters outside the set" of the
    specification: the title with those characters removed, or the
    default name when nothing is left. *)
Definition strip_outside_set (name : string) : string :=
  let kept := PyStr.filter safe_char name in
  (if String.eqb kept "" then "tbl_torrent" else kept) +:+ ".torrent".

Definition not_underscore (c : ascii) : bool := negb (PyStr.eqc c "_"%char).

(** ** Python values of the module *)

(** A chat reference, [int | str]. *)
Inductive ChatRef :=
  | ChatId (id : Z)
  | ChatName (name : string).

Global Instance ChatRef_eq_dec : EqDecision ChatRef.
Proof. solve_decision. Defined.

(** Truth value of an [int | str | None]: [None], [0] and the empty string
    are false. *)
Definition truthy (v : option ChatRef) : bool :=
  match v with
  | None => false
  | Some (ChatId id) => negb (id =? 0)%Z
  | Some (ChatName name) => negb (String.eqb name "")
  end.

(** [a or b]. *)
Definition py_or (a b : option ChatRef) : option ChatRef :=
  if truthy a then a else b.

(** The exception classes the module tells apart: [RPCError] is an
    [Exception]; [asyncio.CancelledError] is a [BaseException] only;
    [OtherException] is any other subclass of [Exception]. *)
Inductive exn :=
  | RPCError
  | CancelledError
  | OtherException.

Definition is_Exception (e : exn) : bool :=
  match e with CancelledError => false | _ => true end.

Definition is_RPCError (e : exn) : bool :=
  match e with RPCError => true | _ => false end.

Definition is_CancelledError (e : exn) : bool :=
  match e with CancelledError => true | _ => false end.

(** What a call does: return a value or raise. *)
Inductive outcome (A : Type) :=
  | Ret (a : A)
  | Raise (e : exn).
Arguments Ret {A} a.
Arguments Raise {A} e.

Inductive ChatType := PRIVATE | BOT | GROUP | SUPERGROUP | CHANNEL.

(** What [bot.get_chat] returns, as far as the module reads it. *)
Record Chat := mkChat { chat_id : Z; chat_type : option ChatType }.

(** [SimpleNamespace(id=..., type=...)]. *)
Record ChatStub := mkStub { stub_id : Z; stub_type : option ChatType }.

(** One entry of a topic's ["links"] list. *)
Record File := mkFile {
  file_type : string;
  file_title : string;
  file_link : string;
  file_size : string }.

(** One entry of the list [_crawl_tbl_sync] returns. *)
Record Topic := mkTopic {
  topic_url : string;
  topic_title : string;
  topic_size : string;
  links : list File }.

(** An [<a>] tag of a parsed page: its [href] and [data-fileext]
    attributes and its stripped text. *)
Record Anchor := mkAnchor {
  a_href : option string;
  a_fileext : option string;
  a_text : string }.

(** A parsed page ([BeautifulSoup]): its anchors in document order. *)
Definition Page : Type := list Anchor.

(** [_AutoCommandMessage]: the fields [_trigger_qbleech] sets from its
    arguments. *)
Record AutoCommandMessage := mkAutoMessage {
  msg_chat : ChatStub;
  msg_id : Z;
  msg_text : string;
  msg_from_user : Z;
  msg_title : string }.

(** The message of an operator's command: the chat it came from. *)
Record Message := mkMessage { message_chat_id : Z }.

Inductive LogRecord :=
  | LogHomepageFailed
  | LogTopicFailed (rel_url : string)
  | LogDownloadFailed (url : string)
  | LogResolveFailed (chat_ref : ChatRef)
  | LogNotConfigured (link : string)
  | LogQueued (what : string)
  | LogLeechFailed (link : string)
  | LogCrawlError
  | LogPosted (title : string)
  | LogSendFailed (link : string)
  | LogStopped.

(** The calls to the collaborators, with what they returned, the entries
    into [_trigger_qbleech] and the log records, in the order they happen. *)
Inductive Event :=
  | EvHttpGet (url : string)
  | EvDownload (url : string) (payload : option string)
  | EvSendDocument (chat : ChatRef) (payload file_name caption : string)
                   (result : outcome unit)
  | EvGetChat (chat_ref : ChatRef) (result : outcome Chat)
  | EvMirrorLeech (message : AutoCommandMessage) (result : outcome unit)
  | EvSleep (seconds : nat)
  | EvSendMessage (text : string)
  | EvCreateTask (upload_chat : ChatRef)
  | EvCancel
  | EvTrigger (link title : string)
  | EvLog (record : LogRecord).

(** The task of [_monitor_task]: the destination its coroutine was created
    with, whether it is done, and whether a [cancel()] is pending (to be
    thrown into the coroutine at its next suspension point). *)
Record Task := mkTask {
  task_upload_chat : ChatRef;
  task_done : bool;
  task_must_cancel : bool }.

(** The module's globals and [config_dict], with the clock that indexes
    the collaborators' answers and the trace of events (newest first). *)
Record State := mkState {
  config_dict : gmap string ChatRef;
  _monitor_task : option Task;
  _monitor_last_links : gset string;
  _monitor_seen_topics : gset string;
  _monitor_command_chat : option ChatRef;
  _command_chat_cache : option (ChatRef * ChatStub);
  clock : nat;
  trace : list Event }.

(** The collaborators.  Each answer is indexed by the clock of the call, so
    the same request may succeed at one time and fail at another.
    [scraper_get] and [scraper_get_content] are [None] when [scraper.get],
    [raise_for_status] or the parse raised (the [except Exception] of the
    two synchronous functions).  [crawl_fault], [download_fault] and
    [sleep_fault] are the exception, if any, that surfaces at the await of
    [asyncio.to_thread] (for the crawl and for the download) and of
    [asyncio.sleep].  Two answers are the event loop's: [first_step_pending]
    tells that a task created by [create_task] has not had its first step
    yet when it is awaited, and [lock_wait_cancelled] that the monitor's
    [finally] finds [_monitor_lock] held by another request and that a
    [cancel()] of its task arrives while it waits for the lock. *)
Record World := mkWorld {
  scraper_get : nat → string → option Page;
  scraper_get_content : nat → string → option string;
  crawl_fault : nat → option exn;
  download_fault : nat → option exn;
  send_document : nat → ChatRef → string → string → string → outcome unit;
  get_chat : nat → ChatRef → outcome Chat;
  mirror_leech : nat → AutoCommandMessage → outcome unit;
  sleep_fault : nat → option exn;
  first_step_pending : nat → bool;
  lock_wait_cancelled : nat → bool;
  time_ms : nat → Z;
  QbLeechCommand : string;
  OWNER_ID : Z }.

(** Python's string methods and the regular expression of [_extract_size],
    which the module uses on the scraped text. *)
Record Builtins := mkBuiltins {
  str_strip : string → string;
  str_replace : string → string → string → string;
  str_rstrip_chars : string → string → string;
  re_search_size : string → option string }.

(** The state of the freshly imported module. *)
Definition initial_state (cfg : gmap string ChatRef) : State :=
  mkState cfg None ∅ ∅ None None 0 [].

(** *** Field updates *)

Definition set_task (v : option Task) (st : State) : State :=
  mkState (config_dict st) v (_monitor_last_links st) (_monitor_seen_topics st)
    (_monitor_command_chat st) (_command_chat_cache st) (clock st) (trace st).

Definition set_last_links (v : gset string) (st : State) : State :=
  mkState (config_dict st) (_monitor_task st) v (_monitor_seen_topics st)
    (_monitor_command_chat st) (_command_chat_cache st) (clock st) (trace st).

Definition set_seen_topics (v : gset string) (st : State) : State :=
  mkState (config_dict st) (_monitor_task st) (_monitor_last_links st) v
    (_monitor_command_chat st) (_command_chat_cache st) (clock st) (trace st).

Definition set_command_chat (v : option ChatRef) (st : State) : State :=
  mkState (config_dict st) (_monitor_task st) (_monitor_last_links st)
    (_monitor_seen_topics st) v (_command_chat_cache st) (clock st) (trace st).

Definition set_cache (v : option (ChatRef * ChatStub)) (st : State) : State :=
  mkState (config_dict st) (_monitor_task st) (_monitor_last_links st)
    (_monitor_seen_topics st) (_monitor_command_chat st) v (clock st) (trace st).

Definition set_clock (v : nat) (st : State) : State :=
  mkState (config_dict st) (_monitor_task st) (_monitor_last_links st)
    (_monitor_seen_topics st) (_monitor_command_chat st) (_command_chat_cache st)
    v (trace st).

Definition set_trace (v : list Event) (st : State) : State :=
  mkState (config_dict st) (_monitor_task st) (_monitor_last_links st)
    (_monitor_seen_topics st) (_monitor_command_chat st) (_command_chat_cache st)
    (clock st) v.

(** ** The monad: state and exceptions *)

Definition M (A : Type) : Type := State → outcome A * State.

Global Instance M_ret : MRet M := λ A a st, (Ret a, st).

Global Instance M_bind : MBind M := λ A B f m st,
  match m st with
  | (Ret a, st') => f a st'
  | (Raise e, st') => (Raise e, st')
  end.

Definition raise {A} (e : exn) : M A := λ st, (Raise e, st).

Definition gets {A} (f : State → A) : M A := λ st, (Ret (f st), st).

Definition modify (f : State → State) : M unit := λ st, (Ret tt, f st).

(** [try: m except <handles>: handler]. *)
Definition try_except {A} (m : M A) (handles : exn → bool) (handler : exn → M A)
  : M A := λ st,
  match m st with
  | (Ret a, st') => (Ret a, st')
  | (Raise e, st') => if handles e then handler e st' else (Raise e, st')
  end.

(** Turn a collaborator's answer into a return or a raise. *)
Definition lift_outcome {A} (o : outcome A) : M A :=
  match o with Ret a => mret a | Raise e => raise e end.

Definition emit (e : Event) : M unit :=
  modify (λ st, set_trace (e :: trace st) st).

Definition log (r : LogRecord) : M unit := emit (EvLog r).

(** Read the clock and advance it. *)
Definition tick : M nat := λ st, (Ret (clock st), set_clock (S (clock st)) st).

(** [for x in l: body x]; a [continue] is a [body] that returns early. *)
Fixpoint for_each {A} (l : list A) (body : A → M unit) : M unit :=
  match l with
  | [] => mret tt
  | x :: l' => body x;; for_each l' body
  end.

(** [for x in l: acc = body x acc], for a loop that builds a local list. *)
Fixpoint for_fold {A S} (l : list A) (body : A → S → M S) (acc : S) : M S :=
  match l with
  | [] => mret acc
  | x :: l' => acc' ← body x acc; for_fold l' body acc'
  end.

(** A suspension point of the monitor's coroutine: a pending [cancel()]
    of its task is thrown in here. *)
Definition deliver_cancel : M unit := λ st,
  match _monitor_task st with
  | Some t =>
      if task_must_cancel t
      then (Raise CancelledError,
            set_task (Some (mkTask (task_upload_chat t) (task_done t) false)) st)
      else (Ret tt, st)
  | None => (Ret tt, st)
  end.

(** ** Constants and list helpers of the crawler *)

Definition _BASE_URL : string := "https://www.1tamilmv.land/".
Definition _MAX_TOPICS : nat := 15.
Definition _POLL_DELAY : nat := 900.

(** [dict.fromkeys(l)] read back as a list: a key is inserted at the end
    the first time it is met and left in place afterwards. *)
Fixpoint dict_fromkeys_into (keys l : list string) : list string :=
  match l with
  | [] => keys
  | x :: l' =>
      if bool_decide (x ∈ keys) then dict_fromkeys_into keys l'
      else dict_fromkeys_into (keys ++ [x]) l'
  end.

Definition dict_fromkeys (l : list string) : list string :=
  dict_fromkeys_into [] l.

(** The list of first occurrences, by recursion on the list. *)
Fixpoint first_occurrences (l : list string) : list string :=
  match l with
  | [] => []
  | x :: l' => x :: filter (λ y, y ≠ x) (first_occurrences l')
  end.

(** The [href]s of [soup.find_all("a", href=re.compile(r"/forums/topic/"))]
    that are not empty. *)
Definition topic_links (soup : Page) : list string :=
  omap (λ a, match a_href a with
             | Some h =>
                 if PyStr.contains "/forums/topic/" h && negb (String.eqb h "")
                 then Some h else None
             | None => None
             end) soup.

(** The iterable of the topic loop. *)
Definition topic_window (soup : Page) : list string :=
  take _MAX_TOPICS (dict_fromkeys (topic_links soup)).

Definition full_url_of (rel_url : string) : string :=
  if PyStr.startswith "http" rel_url then rel_url else _BASE_URL +:+ rel_url.

(** [post_soup.find_all("a", attrs={"data-fileext": "torrent"})]. *)
Definition torrent_tags (post_soup : Page) : list Anchor :=
  filter (λ a, a_fileext a = Some "torrent") post_soup.

Definition newline : string := String "010"%char "".

(** [\ud83d\udce6] in the caption's literal: the two escapes are two code
    points, the surrogates U+D83D and U+DCE6, which Python does not join
    into U+1F4E6.  A [str] is held here as the bytes of its code points in
    UTF-8, a surrogate in the three-byte form ([surrogatepass]):
    [ED A0 BD] and [ED B3 A6]. *)
Definition package_sign : string :=
  String "237"%char (String "160"%char (String "189"%char
    (String "237"%char (String "179"%char (String "166"%char ""))))).

Definition caption_of (file_ : File) : string :=
  file_title file_ +:+ newline +:+ package_sign +:+ " " +:+ file_size file_
  +:+ newline +:+ "#tmv torrent file".

(** [_command_chat_cache and _command_chat_cache[0] == chat_ref]. *)
Definition cache_hit (cache : option (ChatRef * ChatStub)) (chat_ref : ChatRef)
  : option ChatStub :=
  match cache with
  | Some (key, stub) => if decide (key = chat_ref) then Some stub else None
  | None => None
  end.

(** [_monitor_task and not _monitor_task.done()]. *)
Definition task_running (st : State) : bool :=
  match _monitor_task st with
  | Some t => negb (task_done t)
  | None => false
  end.

(** The handle when its task has ended and nothing has cleared it: it
    holds the same task, done. *)
Definition finish_task (st : State) : State :=
  set_task (match _monitor_task st with
            | Some t => Some (mkTask (task_upload_chat t) true false)
            | None => None
            end) st.

(** The reply of [_start_monitor] and of [_stop_monitor] to the operator. *)
Inductive StartStatus := Misconfigured | AlreadyRunning | Started.
Inductive StopStatus := NotRunning | Stopped.

Definition sendMessage (text : string) : M unit := emit (EvSendMessage text).

(** ** The module's functions *)

Section Module.
Context (W : World) (B : Builtins).

Definition _extract_size (text : string) : string :=
  match re_search_size B text with
  | Some m => m
  | None => "Unknown"
  end.

(** [scraper.get(url, timeout=10)], [raise_for_status()] and the parse
    of the body; [None] when one of them raised. *)
Definition http_get (url : string) : M (option Page) :=
  t ← tick;
  emit (EvHttpGet url);;
  mret (scraper_get W t url).

(** The body of the loop over [torrent_tags]. *)
Definition file_of_tag (tag : Anchor) : option File :=
  match a_href tag with
  | None => None
  | Some href =>
      if String.eqb href "" then None
      else
        let link := str_strip B href in
        let raw_text := a_text tag in
        let title :=
          str_strip B
            (str_rstrip_chars B
               (str_replace B raw_text "https://www.1tamilmv.mba/" "")
               ".torrent") in
        Some (mkFile "torrent" title link (_extract_size raw_text))
  end.

(** The body of the loop over the topics: [torrents] is the list built
    so far. *)
Definition crawl_topic (rel_url : string) (torrents : list Topic)
  : M (list Topic) :=
  let full_url := full_url_of rel_url in
  dresp ← http_get full_url;
  match dresp with
  | None => log (LogTopicFailed rel_url);; mret torrents
  | Some post_soup =>
      let file_links := omap file_of_tag (torrent_tags post_soup) in
      match file_links with
      | [] => mret torrents
      | first :: _ =>
          mret (torrents ++
                [mkTopic full_url (file_title first) (file_size first) file_links])
      end
  end.

(** The runs of [_crawl_tbl_sync] that return.  [create_scraper()] and
    the parse of the homepage are outside the function's [try] blocks: an
    exception of theirs leaves the function and surfaces at the await of
    [_crawl_tbl], where it is [crawl_fault]. *)
Definition _crawl_tbl_sync : M (list Topic) :=
  resp ← http_get _BASE_URL;
  match resp with
  | None => log LogHomepageFailed;; mret []
  | Some soup => for_fold (topic_window soup) crawl_topic []
  end.

Definition _download_torrent_sync (url : string) : M (option string) :=
  t ← tick;
  let resp := scraper_get_content W t url in
  emit (EvDownload url resp);;
  match resp with
  | None => log (LogDownloadFailed url);; mret None
  | Some content => mret (Some content)
  end.

(** [await asyncio.to_thread(f)]: a suspension point; [fault] is an
    exception that surfaces at the await instead of the result of [f]. *)
Definition asyncio_to_thread {A} (fault : nat → option exn) (f : M A) : M A :=
  deliver_cancel;;
  t ← tick;
  match fault t with
  | Some e => raise e
  | None => f
  end.

Definition _crawl_tbl : M (list Topic) :=
  asyncio_to_thread (crawl_fault W) _crawl_tbl_sync.

Definition _download_torrent (url : string) : M (option string) :=
  asyncio_to_thread (download_fault W) (_download_torrent_sync url).

(** [await bot.get_chat(chat_ref)]. *)
Definition bot_get_chat (chat_ref : ChatRef) : M Chat :=
  deliver_cancel;;
  t ← tick;
  let r := get_chat W t chat_ref in
  emit (EvGetChat chat_ref r);;
  lift_outcome r.

(** [await bot.send_document(chat, file_bytes, file_name=..., caption=...)]. *)
Definition bot_send_document (chat : ChatRef) (payload file_name caption : string)
  : M unit :=
  deliver_cancel;;
  t ← tick;
  let r := send_document W t chat payload file_name caption in
  emit (EvSendDocument chat payload file_name caption r);;
  lift_outcome r.

(** [_mirror_leech(bot, auto_message, isQbit=True, isLeech=True)]. *)
Definition call_mirror_leech (auto_message : AutoCommandMessage) : M unit :=
  t ← tick;
  let r := mirror_leech W t auto_message in
  emit (EvMirrorLeech auto_message r);;
  lift_outcome r.

(** [await asyncio.sleep(seconds)]. *)
Definition asyncio_sleep (seconds : nat) : M unit :=
  deliver_cancel;;
  t ← tick;
  emit (EvSleep seconds);;
  match sleep_fault W t with
  | Some e => raise e
  | None => mret tt
  end.

Definition _resolve_command_chat (chat_ref : ChatRef) : M (option ChatStub) :=
  cache ← gets _command_chat_cache;
  match cache_hit cache chat_ref with
  | Some stub => mret (Some stub)
  | None =>
      resolved ← try_except
        (chat ← bot_get_chat chat_ref; mret (Some chat))
        is_RPCError
        (λ _, log (LogResolveFailed chat_ref);; mret None);
      match resolved with
      | None => mret None
      | Some chat =>
          let chat_stub :=
            mkStub (chat_id chat)
              (Some (match chat_type chat with
                     | Some ty => ty
                     | None => SUPERGROUP
                     end)) in
          modify (set_cache (Some (chat_ref, chat_stub)));;
          mret (Some chat_stub)
      end
  end.

(** [chat.type = ...] on the namespace the cache holds too. *)
Definition default_stub_type (chat : ChatStub) : M ChatStub :=
  match stub_type chat with
  | Some _ => mret chat
  | None =>
      let ty := if PyStr.startswith "-100" (pretty (stub_id chat))
                then SUPERGROUP else PRIVATE in
      let chat' := mkStub (stub_id chat) (Some ty) in
      modify (λ st, set_cache
                      (match _command_chat_cache st with
                       | Some (key, _) => Some (key, chat')
                       | None => None
                       end) st);;
      mret chat'
  end.

(** The end of [_trigger_qbleech], with the chat resolved. *)
Definition queue_leech (chat : ChatStub) (link title : string) : M unit :=
  chat ← default_stub_type chat;
  now ← gets clock;
  let auto_message :=
    mkAutoMessage chat (time_ms W now)
      ("/" +:+ QbLeechCommand W +:+ " " +:+ link) (OWNER_ID W)
      (if String.eqb title "" then "TamilAuto" else title) in
  try_except
    (call_mirror_leech auto_message;;
     log (LogQueued (if String.eqb title "" then link else title)))
    is_Exception
    (λ _, log (LogLeechFailed link)).

Definition resolve_and_queue (chat_ref : ChatRef) (link title : string) : M unit :=
  resolved ← _resolve_command_chat chat_ref;
  match resolved with
  | None => mret tt
  | Some chat => queue_leech chat link title
  end.

Definition _trigger_qbleech (link title : string) : M unit :=
  emit (EvTrigger link title);;
  override ← gets _monitor_command_chat;
  cfg ← gets config_dict;
  let chat_ref :=
    py_or (py_or override (cfg !! "AUTO_TBL_COMMAND_CHAT"))
          (cfg !! "AUTO_TBL_CHANNEL") in
  match chat_ref with
  | None => log (LogNotConfigured link)
  | Some ref =>
      if negb (truthy chat_ref) then log (LogNotConfigured link)
      else resolve_and_queue ref link title
  end.

(** The body of the loop over [new_files]. *)
Definition process_file (upload_chat : ChatRef) (file_ : File) : M unit :=
  file_bytes ← _download_torrent (file_link file_);
  match file_bytes with
  | None => mret tt
  | Some payload =>
      let filename := _sanitize_filename (file_title file_) in
      let caption := caption_of file_ in
      sent ← try_except
        (bot_send_document upload_chat payload filename caption;;
         modify (λ st, set_last_links
                         ({[file_link file_]} ∪ _monitor_last_links st) st);;
         log (LogPosted (file_title file_));;
         mret true)
        is_RPCError
        (λ _, log (LogSendFailed (file_link file_));; mret false);
      if sent : bool then _trigger_qbleech (file_link file_) (file_title file_)
      else mret tt
  end.

Definition new_files_of (seen_links : gset string) (torrent : Topic) : list File :=
  filter (λ f, file_link f ∉ seen_links) (links torrent).

(** The body of the loop over [torrents]. *)
Definition process_topic (upload_chat : ChatRef) (torrent : Topic) : M unit :=
  seen_links ← gets _monitor_last_links;
  seen_topics ← gets _monitor_seen_topics;
  let new_files := new_files_of seen_links torrent in
  if bool_decide (topic_url torrent ∈ seen_topics) && bool_decide (new_files = [])
  then mret tt
  else
    for_each new_files (process_file upload_chat);;
    modify (λ st, set_seen_topics
                    ({[topic_url torrent]} ∪ _monitor_seen_topics st) st).

(** The body of [while True]. *)
Definition poll_cycle (upload_chat : ChatRef) : M unit :=
  torrents ← try_except _crawl_tbl is_Exception
               (λ _, log LogCrawlError;; mret []);
  for_each torrents (process_topic upload_chat);;
  asyncio_sleep _POLL_DELAY.

(** [n] turns of [while True]: [Ret] when all of them completed (the
    loop goes on), [Raise] when an exception left the loop. *)
Fixpoint monitor_loop (n : nat) (upload_chat : ChatRef) : M unit :=
  match n with
  | 0 => mret tt
  | S n' => poll_cycle upload_chat;; monitor_loop n' upload_chat
  end.

(** [finally: async with _monitor_lock: _monitor_task = None], entered
    with the exception [e] in flight.  Taking the lock suspends the
    coroutine only when another request holds it.  A [cancel()] that
    arrives during that wait is raised out of the [async with] in place
    of [e]: the assignment is not reached, the coroutine ends, and the
    handle keeps its task, now done.  Otherwise the handle is cleared and
    [e] goes on. *)
Definition monitor_finally {A} (e : exn) : M A :=
  now ← gets clock;
  if lock_wait_cancelled W now then
    modify finish_task;;
    raise CancelledError
  else
    modify (set_task None);;
    raise e.

(** The coroutine, once entered, observed for [n] turns of its loop:
    [Ret] when it is still running after them, [Raise e] when it has
    exited with [e] (through [except CancelledError] for a cancellation
    raised in the loop, and through [finally] in every case). *)
Definition _tamilblasters_monitor (n : nat) (upload_chat : ChatRef) : M unit :=
  λ st,
  match monitor_loop n upload_chat st with
  | (Ret a, st') => (Ret a, st')
  | (Raise e, st') =>
      ((if is_CancelledError e then log LogStopped else mret tt);;
       monitor_finally e) st'
  end.

Definition _start_monitor (message : Message) : M StartStatus :=
  cfg ← gets config_dict;
  match cfg !! "AUTO_TBL_CHANNEL" with
  | None =>
      sendMessage "AUTO_TBL_CHANNEL is not configured. Set it in the environment to enable this feature.";;
      mret Misconfigured
  | Some upload_chat =>
      if negb (truthy (Some upload_chat)) then
        sendMessage "AUTO_TBL_CHANNEL is not configured. Set it in the environment to enable this feature.";;
        mret Misconfigured
      else
        running ← gets task_running;
        if running : bool then
          sendMessage "TamilBlasters auto-leech is already running.";;
          mret AlreadyRunning
        else
          cfg ← gets config_dict;
          modify (set_command_chat
                    (py_or (cfg !! "AUTO_TBL_COMMAND_CHAT")
                           (Some (ChatId (message_chat_id message)))));;
          modify (set_cache None);;
          emit (EvCreateTask upload_chat);;
          modify (set_task (Some (mkTask upload_chat false false)));;
          sendMessage "TamilBlasters auto-leech started. New torrents will be posted automatically.";;
          mret Started
  end.

(** [_monitor_task.cancel()]. *)
Definition task_cancel : M unit :=
  emit EvCancel;;
  modify (λ st, set_task
                  (match _monitor_task st with
                   | Some t => Some (mkTask (task_upload_chat t) (task_done t) true)
                   | None => None
                   end) st).

(** [await _monitor_task]: the task runs on until it ends, and its
    exception is raised at the await.  A task that is cancelled before
    its first step ends at that step without entering the coroutine:
    neither [except] nor [finally] runs, nothing is logged, and the
    handle keeps the task, now done.  Otherwise the coroutine is followed
    for [n] turns of its loop; [None] when it is still running after
    them. *)
Definition await_monitor_task (n : nat) : M (option unit) :=
  task ← gets _monitor_task;
  match task with
  | Some t =>
      now ← gets clock;
      if first_step_pending W now && task_must_cancel t then
        modify finish_task;;
        raise CancelledError
      else
        _tamilblasters_monitor n (task_upload_chat t);; mret None
  | None => raise OtherException
  end.

(** [None] when the awaited coroutine is still running after [n] turns. *)
Definition _stop_monitor (n : nat) (message : Message) : M (option StopStatus) :=
  running ← gets task_running;
  if negb running then
    sendMessage "TamilBlasters auto-leech is not running.";;
    mret (Some NotRunning)
  else
    task_cancel;;
    awaited ← try_except (await_monitor_task n) is_CancelledError
                (λ _, mret (Some tt));
    match awaited with
    | None => mret None
    | Some _ =>
        sendMessage "TamilBlasters auto-leech stopped.";;
        mret (Some Stopped)
    end.

End Module.

(** ** Vocabulary of the statements *)

(** The URLs requested with [scraper.get] in a trace, oldest first. *)
Definition http_requests (tr : list Event) : list string :=
  rev (omap (λ e, match e with EvHttpGet url => Some url | _ => None end) tr).

(** The links handed to [_download_torrent] in a trace, oldest first. *)
Definition downloads (tr : list Event) : list string :=
  rev (omap (λ e, match e with EvDownload url _ => Some url | _ => None end) tr).

(** [st'] is [st] with a later clock and the events [new] added. *)
Definition advanced (new : list Event) (st st' : State) : Prop :=
  ∃ c, st' = set_trace (new ++ trace st) (set_clock c st).

(** Events that neither enter the downstream trigger nor report a missing
    command chat. *)
Definition harmless_event (e : Event) : Prop :=
  match e with
  | EvTrigger _ _ => False
  | EvLog (LogNotConfigured _) => False
  | _ => True
  end.

(** The events [_trigger_qbleech] adds after its entry. *)
Definition trigger_event (e : Event) : Prop :=
  match e with
  | EvGetChat _ _ | EvMirrorLeech _ _ => True
  | EvLog (LogNotConfigured _) | EvLog (LogResolveFailed _)
  | EvLog (LogQueued _) | EvLog (LogLeechFailed _) => True
  | _ => False
  end.

(** Among the events [new], the payload downloaded from [link] was sent
    and the send returned: the successful [send_document] comes right after
    the download of [link], with the payload that download returned. *)
Definition delivered (link : string) (new : list Event) : Prop :=
  ∃ chat payload file_name caption pre post,
    new = pre ++ EvSendDocument chat payload file_name caption (Ret tt)
                 :: EvDownload link (Some payload) :: post.

(** [_trigger_qbleech] finds a chat reference:
    [_monitor_command_chat or config_dict.get('AUTO_TBL_COMMAND_CHAT') or
    config_dict.get('AUTO_TBL_CHANNEL')] is true. *)
Definition configured (st : State) : Prop :=
  truthy (py_or (py_or (_monitor_command_chat st)
                       (config_dict st !! "AUTO_TBL_COMMAND_CHAT"))
                (config_dict st !! "AUTO_TBL_CHANNEL")) = true.

(** [st'] differs from [st] in the clock, the cache, the pending
    cancellation, and by events [new] that satisfy [allowed]. *)
Definition frame_step (allowed : Event → Prop) (st st' : State) : Prop :=
  config_dict st' = config_dict st
  ∧ _monitor_command_chat st' = _monitor_command_chat st
  ∧ _monitor_last_links st' = _monitor_last_links st
  ∧ _monitor_seen_topics st' = _monitor_seen_topics st
  ∧ ∃ new, trace st' = new ++ trace st ∧ Forall allowed new.

(** What the monitor's code may do to a state [st0]: the configuration and
    the recorded command chat stay; the two dedup sets only grow; a link
    is in [_monitor_last_links] only if it was there or was delivered; the
    trigger is entered only for delivered links; and if a chat reference
    can be found in [st0], no "not configured" record is logged. *)
Definition evolves (st0 st : State) : Prop :=
  config_dict st = config_dict st0
  ∧ _monitor_command_chat st = _monitor_command_chat st0
  ∧ _monitor_last_links st0 ⊆ _monitor_last_links st
  ∧ _monitor_seen_topics st0 ⊆ _monitor_seen_topics st
  ∧ ∃ new, trace st = new ++ trace st0
      ∧ (∀ l, l ∈ _monitor_last_links st →
              l ∈ _monitor_last_links st0 ∨ delivered l new)
      ∧ (∀ l t, EvTrigger l t ∈ new → delivered l new)
      ∧ (configured st0 → ∀ l, EvLog (LogNotConfigured l) ∉ new).

(** Every state an action leads to is related to the state it started
    from, whether it returns or raises. *)
Definition steps {A} (R : State → State → Prop) (m : M A) : Prop :=
  ∀ st, R st (m st).2.

(** No [cancel()] of the monitor's task is waiting to be delivered. *)
Definition no_cancel_pending (st : State) : Prop :=
  match _monitor_task st with
  | Some t => task_must_cancel t = false
  | None => True
  end.

(** From a state that satisfies [P], [m] returns in a state that satisfies
    [Q] or raises [e] in a state that satisfies [E e]. *)
Definition hoare {A} (P : State → Prop) (m : M A)
    (Q : A → State → Prop) (E : exn → State → Prop) : Prop :=
  ∀ st, P st →
    match m st with
    | (Ret a, st') => Q a st'
    | (Raise e, st') => E e st'
    end.

(** The errors the monitor's handlers are written for: the crawl raises
    subclasses of [Exception] only, a payload that cannot be fetched is
    reported as [None], [send_document] and [get_chat] raise [RPCError]
    only, [_mirror_leech] raises subclasses of [Exception] only, and
    nothing surfaces at the bare suspension points. *)
Definition contained (W : World) : Prop :=
  (∀ t e, crawl_fault W t = Some e → is_Exception e = true)
  ∧ (∀ t, download_fault W t = None)
  ∧ (∀ t chat payload file_name caption e,
       send_document W t chat payload file_name caption = Raise e → e = RPCError)
  ∧ (∀ t chat_ref e, get_chat W t chat_ref = Raise e → e = RPCError)
  ∧ (∀ t message e, mirror_leech W t message = Raise e → is_Exception e = true)
  ∧ (∀ t, sleep_fault W t = None).

(** Events of an item whose payload was not delivered: no entry into the
    trigger, no "not configured" record, no [send_document] that returned. *)
Definition undelivered_event (e : Event) : Prop :=
  match e with
  | EvTrigger _ _ => False
  | EvLog (LogNotConfigured _) => False
  | EvSendDocument _ _ _ _ (Ret _) => False
  | _ => True
  end.

(** With no cancellation pending, [m] returns or raises an exception of
    the class [C], and no cancellation is pending afterwards. *)
Definition raises_only (C : exn → Prop) {A} (m : M A) : Prop :=
  hoare no_cancel_pending m
    (λ _, no_cancel_pending) (λ e st, C e ∧ no_cancel_pending st).

Definition no_exn (e : exn) : Prop := False.

(** The events added between [st] and a later state [st']. *)
Definition events_since (st st' : State) : list Event :=
  take (length (trace st') - length (trace st)) (trace st').

(** An edit of [config_dict] from outside the module (the bot's settings). *)
Definition set_config (cfg : gmap string ChatRef) (st : State) : State :=
  mkState cfg (_monitor_task st) (_monitor_last_links st) (_monitor_seen_topics st)
    (_monitor_command_chat st) (_command_chat_cache st) (clock st) (trace st).

(** ** Example worlds *)

Module Example.

(** String methods that leave the scraped text as it is. *)
Definition builtins : Builtins :=
  mkBuiltins (λ s, s) (λ s _ _, s) (λ s _, s) (λ _, None).

(** A homepage with two topics, the first linked twice. *)
Definition homepage : Page :=
  [ mkAnchor (Some "/forums/topic/1") None "Topic 1";
    mkAnchor (Some "/about") None "About";
    mkAnchor (Some "/forums/topic/1") None "Topic 1";
    mkAnchor (Some "/forums/topic/2") None "Topic 2" ].

(** A topic page with one torrent link. *)
Definition topic_page (n : string) : Page :=
  [ mkAnchor (Some ("L" +:+ n)) (Some "torrent") ("Movie " +:+ n);
    mkAnchor (Some "/reply") None "Reply" ].

Definition pages (t : nat) (url : string) : option Page :=
  if String.eqb url _BASE_URL then Some homepage
  else if String.eqb url "https://www.1tamilmv.land//forums/topic/1"
       then Some (topic_page "1")
       else Some (topic_page "2").

Definition upload_chat : ChatRef := ChatId (-1001).

Definition operator : Message := mkMessage 7.

Definition config : gmap string ChatRef := {[ "AUTO_TBL_CHANNEL" := upload_chat ]}.

(** Every collaborator answers. *)
Definition calm : World :=
  mkWorld pages (λ _ url, Some ("torrent of " +:+ url))
    (λ _, None) (λ _, None)
    (λ _ _ _ _ _, Ret tt)
    (λ _ _, Ret (mkChat 7 (Some PRIVATE)))
    (λ _ _, Ret tt)
    (λ _, None) (λ _, false) (λ _, false) (λ t, Z.of_nat t) "qbleech" 1.

(** Telegram refuses every document and every chat lookup; the first
    crawl and every downstream action raise. *)
Definition refusing : World :=
  mkWorld pages (λ _ url, Some ("torrent of " +:+ url))
    (λ t, if t is 0 then Some OtherException else None) (λ _, None)
    (λ _ _ _ _ _, Raise RPCError)
    (λ _ _, Raise RPCError)
    (λ _ _, Raise OtherException)
    (λ _, None) (λ _, false) (λ _, false) (λ t, Z.of_nat t) "qbleech" 1.

(** [send_document] raises an error that is not an [RPCError]. *)
Definition broken_send : World :=
  mkWorld pages (λ _ url, Some ("torrent of " +:+ url))
    (λ _, None) (λ _, None)
    (λ _ _ _ _ _, Raise OtherException)
    (λ _ _, Ret (mkChat 7 (Some PRIVATE)))
    (λ _ _, Ret tt)
    (λ _, None) (λ _, false) (λ _, false) (λ t, Z.of_nat t) "qbleech" 1.

(** The calm world, but the monitor's [finally] is cancelled while it
    waits for the lock. *)
Definition contended : World :=
  mkWorld pages (λ _ url, Some ("torrent of " +:+ url))
    (λ _, None) (λ _, None)
    (λ _ _ _ _ _, Ret tt)
    (λ _ _, Ret (mkChat 7 (Some PRIVATE)))
    (λ _ _, Ret tt)
    (λ _, None) (λ _, false) (λ _, true) (λ t, Z.of_nat t) "qbleech" 1.

(** The calm world, but a stop request is served before the task it
    cancels has had its first step. *)
Definition early_stop : World :=
  mkWorld pages (λ _ url, Some ("torrent of " +:+ url))
    (λ _, None) (λ _, None)
    (λ _ _ _ _ _, Ret tt)
    (λ _ _, Ret (mkChat 7 (Some PRIVATE)))
    (λ _ _, Ret tt)
    (λ _, None) (λ _, true) (λ _, false) (λ t, Z.of_nat t) "qbleech" 1.

(** The module after [/autotamil] from [operator]. *)
Definition started : State :=
  (_start_monitor operator (initial_state config)).2.

(** The module after one poll cycle in the calm world. *)
Definition delivered_once : State :=
  (_tamilblasters_monitor calm builtins 1 upload_chat started).2.

Definition file1 : File := mkFile "torrent" "Movie 1" "L1" "Unknown".

Definition topic1 : Topic :=
  mkTopic "https://www.1tamilmv.land//forums/topic/1" "Movie 1" "Unknown"
    [file1].

End Example.

(** ** Vocabulary of the further properties *)

(** [st'] has the trace of [st] with events that satisfy [allowed] added;
    the globals may differ. *)
Definition trace_step (allowed : Event → Prop) (st st' : State) : Prop :=
  ∃ new, trace st' = new ++ trace st ∧ Forall allowed new.

(** [m] is the message [_trigger_qbleech] builds for [link] and [title]. *)
Definition leech_message_for (W : World) (link title : string)
    (m : AutoCommandMessage) : Prop :=
  msg_text m = "/" +:+ QbLeechCommand W +:+ " " +:+ link
  ∧ msg_from_user m = OWNER_ID W
  ∧ msg_title m = (if String.eqb title "" then "TamilAuto" else title)
  ∧ stub_type (msg_chat m) ≠ None.

(** The events of the pipeline of one file. *)
Definition file_event (W : World) (chat : ChatRef) (file_ : File) (e : Event) : Prop :=
  match e with
  | EvDownload url _ => url = file_link file_
  | EvSendDocument c _ file_name caption _ =>
      c = chat ∧ file_name = _sanitize_filename (file_title file_)
      ∧ caption = caption_of file_
  | EvTrigger link title => link = file_link file_ ∧ title = file_title file_
  | EvGetChat _ _ => True
  | EvMirrorLeech m _ => leech_message_for W (file_link file_) (file_title file_) m
  | EvLog (LogDownloadFailed url) => url = file_link file_
  | EvLog (LogPosted title) => title = file_title file_
  | EvLog (LogSendFailed link) | EvLog (LogNotConfigured link)
  | EvLog (LogLeechFailed link) => link = file_link file_
  | EvLog (LogResolveFailed _) | EvLog (LogQueued _) => True
  | _ => False
  end.

(** The events of the monitor's coroutine. *)
Definition monitor_event (W : World) (chat : ChatRef) (e : Event) : Prop :=
  match e with
  | EvHttpGet _ | EvGetChat _ _ | EvLog _ => True
  | EvSleep seconds => seconds = _POLL_DELAY
  | EvSendMessage _ | EvCreateTask _ | EvCancel => False
  | _ => ∃ file_, file_event W chat file_ e
  end.

(** A stretch of the monitor's run keeps what the dedup sets hold and
    downloads nothing that [_monitor_last_links] held when it began. *)
(** A file of a topic that a crawl of the source returns. *)
Definition crawled_file (W : World) (B : Builtins) (file_ : File) : Prop :=
  ∃ st topics topic,
    (_crawl_tbl_sync W B st).1 = Ret topics
    ∧ topic ∈ topics
    ∧ file_ ∈ links topic.

(** The events of the pipeline are events of the pipeline of a crawled
    file. *)
Definition crawled_file_event (W : World) (B : Builtins) (chat : ChatRef)
    (e : Event) : Prop :=
  match e with
  | EvDownload _ _ | EvSendDocument _ _ _ _ _ | EvTrigger _ _ | EvMirrorLeech _ _ =>
      ∃ file_, crawled_file W B file_ ∧ file_event W chat file_ e
  | _ => True
  end.

Definition dedup_step (st st' : State) : Prop :=
  _monitor_last_links st ⊆ _monitor_last_links st'
  ∧ _monitor_seen_topics st ⊆ _monitor_seen_topics st'
  ∧ ∃ new, trace st' = new ++ trace st
      ∧ ∀ url r, EvDownload url r ∈ new → url ∉ _monitor_last_links st.

(** Neither a download nor a document. *)
Definition no_transfer_event (e : Event) : Prop :=
  match e with
  | EvDownload _ _ | EvSendDocument _ _ _ _ _ => False
  | _ => True
  end.

(** The topic a fetched topic page gives, if it has a torrent link. *)
Definition topic_of_page (B : Builtins) (rel_url : string) (post_soup : Page)
  : option Topic :=
  match omap (file_of_tag B) (torrent_tags post_soup) with
  | [] => None
  | first :: rest =>
      Some (mkTopic (full_url_of rel_url) (file_title first) (file_size first)
              (first :: rest))
  end.

(** The topics of a window whose pages are requested at the clocks
    [t], [t + 1], ...: one independent lookup per topic. *)
Fixpoint crawled (W : World) (B : Builtins) (t : nat) (window : list string)
  : list Topic :=
  match window with
  | [] => []
  | rel_url :: window' =>
      match scraper_get W t (full_url_of rel_url) ≫= topic_of_page B rel_url with
      | Some topic => topic :: crawled W B (S t) window'
      | None => crawled W B (S t) window'
      end
  end.

(** A file made from a tag of a topic page. *)
Definition file_from_tag (B : Builtins) (file_ : File) : Prop :=
  file_type file_ = "torrent"
  ∧ ∃ tag href,
      a_fileext tag = Some "torrent" ∧ a_href tag = Some href ∧ href ≠ ""
      ∧ file_link file_ = str_strip B href
      ∧ file_size file_ = _extract_size B (a_text tag).

(** A topic as the crawl builds it. *)
Definition crawled_topic (B : Builtins) (topic : Topic) : Prop :=
  PyStr.startswith "http" (topic_url topic) = true
  ∧ (∃ first rest,
       links topic = first :: rest
       ∧ topic_title topic = file_title first
       ∧ topic_size topic = file_size first)
  ∧ Forall (file_from_tag B) (links topic).

(** Start requests served one after the other. *)
Definition start_requests (messages : list Message) : M unit :=
  for_each messages (λ message, _start_monitor message;; mret tt).

(** The number of tasks created in a trace. *)
Definition tasks_created (tr : list Event) : nat :=
  length (omap (λ e, match e with EvCreateTask c => Some c | _ => None end) tr).

(** The number of sleeps begun in a trace. *)
Definition sleeps (tr : list Event) : nat :=
  length (omap (λ e, match e with EvSleep s => Some s | _ => None end) tr).

Definition no_sleep_event (e : Event) : Prop :=
  match e with EvSleep _ => False | _ => True end.

(** ** [_AutoUser] *)

(** [s.replace(old, new)] for a single character [old]. *)
Fixpoint replace_char (old : ascii) (new : string) (s : string) : string :=
  match s with
  | "" => ""
  | String c rest =>
      (if PyStr.eqc c old then new else String c "") +:+ replace_char old new rest
  end.

Record AutoUser := mkAutoUser {
  user_id : Z;
  first_name : string;
  username : option string;
  is_bot : bool;
  is_self : bool }.

(** [_AutoUser(user_id, name="TamilAuto")]. *)
Definition _AutoUser (user_id : Z) (name : option string) : AutoUser :=
  mkAutoUser user_id (default "TamilAuto" name) None false false.

(** [mention(self, style="html")], with [str.lower] as [str_lower];
    [style] is [None] for a caller that passes [None]. *)
Definition mention (str_lower : string → string) (self : AutoUser)
    (style : option string) : string :=
  let style :=
    str_lower (match style with
               | Some s => if String.eqb s "" then "" else s
               | None => ""
               end) in
  if String.eqb style "html" then
    "<a href='tg://user?id=" +:+ pretty (user_id self) +:+ "'>"
    +:+ first_name self +:+ "</a>"
  else if String.eqb style "markdown" || String.eqb style "markdownv2"
          || String.eqb style "md" || String.eqb style "mdv2" then
    let safe_name :=
      replace_char "]"%char "\]" (replace_char "["%char "\[" (first_name self)) in
    "[" +:+ safe_name +:+ "](tg://user?id=" +:+ pretty (user_id self) +:+ ")"
  else first_name self.

Definition is_bracket (c : ascii) : bool :=
  PyStr.eqc c "["%char || PyStr.eqc c "]"%char.

(** Every bracket of [s] comes right after a backslash;
    [after_backslash] tells whether the previous character was one. *)
Fixpoint brackets_escaped (after_backslash : bool) (s : string) : bool :=
  match s with
  | "" => true
  | String c rest =>
      (if is_bracket c then after_backslash else true)
      && brackets_escaped (PyStr.eqc c "\"%char) rest
  end.

(** Read an escaped name back: a backslash followed by a bracket stands
    for the bracket. *)
Fixpoint unescape_brackets (s : string) : string :=
  match s with
  | "" => ""
  | String c tail =>
      match tail with
      | "" => String c ""
      | String d rest =>
          if PyStr.eqc c "\"%char && is_bracket d
          then String d (unescape_brackets rest)
          else String c (unescape_brackets tail)
      end
  end.

(** The two replacements of [mention], character by character. *)
Fixpoint escape_each (s : string) : string :=
  match s with
  | "" => ""
  | String c rest =>
      (if PyStr.eqc c "["%char then "\["
       else if PyStr.eqc c "]"%char then "\]"
       else String c "") +:+ escape_each rest
  end.

(** * Theorems *)

(** ** [_sanitize_filename] *)

Section Sanitize.

Local Abbreviation us := "_"%char.

Lemma eqc_spec a b : PyStr.eqc a b = true ↔ a = b.
Proof. apply Ascii.eqb_eq. Qed.

Lemma all_re_sub_unsafe name : ∀ b, PyStr.all safe_char (re_sub_unsafe b name) = true.
Proof.
  induction name as [|c rest IH]; intros b; simpl; [done|].
  destruct (safe_char c) eqn:Hc; simpl.
  - by rewrite Hc, IH.
  - destruct b; simpl; by rewrite ?IH.
Qed.

Lemma all_lstrip p c s : PyStr.all p s = true → PyStr.all p (PyStr.lstrip c s) = true.
Proof.
  induction s as [|a s IH]; simpl; [done|].
  intros [Ha Hs]%andb_prop. destruct (PyStr.eqc a c); [auto|].
  simpl. by rewrite Ha, Hs.
Qed.

Lemma all_rstrip p c s : PyStr.all p s = true → PyStr.all p (PyStr.rstrip c s) = true.
Proof.
  induction s as [|a s IH]; simpl; [done|].
  intros [Ha Hs]%andb_prop.
  destruct (PyStr.eqc a c && String.eqb (PyStr.rstrip c s) ""); simpl; [done|].
  by rewrite Ha, IH.
Qed.

Lemma all_app p s t :
  PyStr.all p s = true → PyStr.all p t = true → PyStr.all p (s +:+ t) = true.
Proof.
  induction s as [|a s IH]; simpl; [done|].
  intros [Ha Hs]%andb_prop Ht. by rewrite Ha, IH.
Qed.

Lemma filter_re_sub_unsafe name : ∀ b,
  PyStr.filter not_underscore (re_sub_unsafe b name)
  = PyStr.filter not_underscore (PyStr.filter safe_char name).
Proof.
  induction name as [|c rest IH]; intros b; simpl; [done|].
  destruct (safe_char c) eqn:Hc; simpl.
  - by rewrite IH.
  - destruct b; simpl; by rewrite IH.
Qed.

Lemma filter_lstrip s :
  PyStr.filter not_underscore (PyStr.lstrip us s) = PyStr.filter not_underscore s.
Proof.
  induction s as [|a s IH]; simpl; [done|].
  unfold not_underscore at 2. destruct (PyStr.eqc a us) eqn:Ha; simpl; [done|].
  unfold not_underscore at 1. by rewrite Ha.
Qed.

Lemma filter_rstrip s :
  PyStr.filter not_underscore (PyStr.rstrip us s) = PyStr.filter not_underscore s.
Proof.
  induction s as [|a s IH]; simpl; [done|].
  destruct (PyStr.eqc a us && String.eqb (PyStr.rstrip us s) "") eqn:E; simpl.
  - apply andb_prop in E as [Ha Hr]. apply String.eqb_eq in Hr.
    unfold not_underscore at 1. rewrite Ha. simpl.
    rewrite <- IH. by rewrite Hr.
  - by rewrite IH.
Qed.

Lemma first_lstrip c s : PyStr.first (PyStr.lstrip c s) ≠ Some c.
Proof.
  induction s as [|a s IH]; simpl; [done|].
  destruct (PyStr.eqc a c) eqn:Ha; [done|]. simpl. intros [= ->].
  by rewrite (proj2 (eqc_spec c c)) in Ha.
Qed.

Lemma first_rstrip c s :
  PyStr.first s ≠ Some c → PyStr.first (PyStr.rstrip c s) ≠ Some c.
Proof.
  destruct s as [|a s]; simpl; [done|].
  intros Ha. destruct (PyStr.eqc a c) eqn:E.
  - apply eqc_spec in E. by subst.
  - simpl. done.
Qed.

Lemma last_rstrip c s : PyStr.last (PyStr.rstrip c s) ≠ Some c.
Proof.
  induction s as [|a s IH]; simpl; [done|].
  destruct (PyStr.eqc a c) eqn:Ha; simpl.
  - destruct (String.eqb (PyStr.rstrip c s) "") eqn:Hr; simpl; [done|].
    apply String.eqb_neq in Hr.
    destruct (PyStr.rstrip c s) as [|a' r']; [done|]. exact IH.
  - destruct (PyStr.rstrip c s) as [|a' r'] eqn:Hr; simpl.
    + intros [= ->]. by rewrite (proj2 (eqc_spec c c)) in Ha.
    + exact IH.
Qed.

Lemma filter_not_underscore_empty s :
  PyStr.all safe_char s = true → PyStr.first s ≠ Some us →
  PyStr.filter not_underscore s = "" → s = "".
Proof.
  destruct s as [|a s]; simpl; [done|].
  intros _ Ha. unfold not_underscore at 1.
  destruct (PyStr.eqc a us) eqn:E; simpl; [|done].
  apply eqc_spec in E. by subst.
Qed.

Lemma filter_strip_re_sub name :
  PyStr.filter not_underscore (PyStr.strip us (re_sub_unsafe false name))
  = PyStr.filter not_underscore (PyStr.filter safe_char name).
Proof.
  unfold PyStr.strip. by rewrite filter_rstrip, filter_lstrip, filter_re_sub_unsafe.
Qed.

Lemma all_strip_re_sub name :
  PyStr.all safe_char (PyStr.strip us (re_sub_unsafe false name)) = true.
Proof. apply all_rstrip, all_lstrip, all_re_sub_unsafe. Qed.

End Sanitize.

(** C9, as the specification words it, fails: the title ["a b"] is
    delivered as ["a_b.torrent"], while stripping the characters outside the
    set gives ["ab.torrent"]. *)
Lemma sanitize_filename_not_stripping :
  _sanitize_filename "a b" = "a_b.torrent"
  ∧ strip_outside_set "a b" = "ab.torrent"
  ∧ _sanitize_filename "a b" ≠ strip_outside_set "a b".
Proof. by vm_compute. Qed.

(** C9, amended: for every title the delivery name is [stem +:+ ".torrent"]
    with a non-empty [stem], and every character of the name is in
    [[0-9A-Za-z._-]].  [safe] is the title with each maximal run of
    characters outside the set replaced by one underscore and the
    underscores at both ends trimmed: underscores apart, it keeps exactly
    the title's characters of the set, in order.  [stem] is [safe], or the
    default ["tbl_torrent"] when [safe] is empty, which is when the title
    has no character of the set other than underscores (the empty title
    included); it neither starts nor ends with an underscore. *)
Theorem sanitize_filename_shape (name : string) :
  let safe := PyStr.strip "_"%char (re_sub_unsafe false name) in
  let kept := PyStr.filter not_underscore (PyStr.filter safe_char name) in
  let stem := if String.eqb safe "" then "tbl_torrent" else safe in
  _sanitize_filename name = stem +:+ ".torrent"
  ∧ stem ≠ ""
  ∧ PyStr.all safe_char (_sanitize_filename name) = true
  ∧ PyStr.first stem ≠ Some "_"%char
  ∧ PyStr.last stem ≠ Some "_"%char
  ∧ PyStr.filter not_underscore safe = kept
  ∧ String.eqb safe "" = String.eqb kept ""
  ∧ _sanitize_filename "" = "tbl_torrent.torrent".
Proof.
  intros safe kept stem.
  assert (Hall : PyStr.all safe_char safe = true) by apply all_strip_re_sub.
  assert (Hkept : PyStr.filter not_underscore safe = kept)
    by apply filter_strip_re_sub.
  assert (Hfirst : PyStr.first safe ≠ Some "_"%char)
    by apply first_rstrip, first_lstrip.
  assert (Hlast : PyStr.last safe ≠ Some "_"%char) by apply last_rstrip.
  assert (Heq : String.eqb safe "" = String.eqb kept "").
  { destruct (String.eqb safe "") eqn:E.
    - apply String.eqb_eq in E. rewrite E in Hkept. by rewrite <- Hkept.
    - symmetry. apply String.eqb_neq. intros Hk. apply String.eqb_neq in E.
      apply E, filter_not_underscore_empty; congruence. }
  assert (Hname : _sanitize_filename name = stem +:+ ".torrent").
  { unfold _sanitize_filename. destruct (String.eqb name "") eqn:E; [|done].
    apply String.eqb_eq in E. subst name. reflexivity. }
  split; [done|]. split.
  { subst stem. destruct (String.eqb safe "") eqn:E; [done|].
    by apply String.eqb_neq in E. }
  split.
  { rewrite Hname. apply all_app; [|done].
    subst stem. by destruct (String.eqb safe ""). }
  subst stem.
  destruct (String.eqb safe "") eqn:E; repeat split; done.
Qed.

(** ** The window of [_crawl_tbl_sync] *)

Section Crawl.
Context (W : World) (B : Builtins).

Lemma first_occurrences_NoDup (l : list string) : NoDup (first_occurrences l).
Proof.
  induction l as [|y l IH]; simpl; constructor.
  - rewrite list_elem_of_filter. naive_solver.
  - by apply NoDup_filter.
Qed.

Lemma dict_fromkeys_into_spec (l keys : list string) :
  dict_fromkeys_into keys l
  = keys ++ filter (λ y, y ∉ keys) (first_occurrences l).
Proof.
  revert keys. induction l as [|x l IH]; intros keys; simpl.
  - by rewrite filter_nil, app_nil_r.
  - case_bool_decide as Hx.
    + rewrite IH, filter_cons_False by naive_solver. f_equal.
      rewrite list_filter_filter. apply list_filter_iff.
      intros y. naive_solver.
    + rewrite IH, filter_cons_True by done.
      rewrite <- app_assoc. simpl. do 2 f_equal.
      rewrite list_filter_filter. apply list_filter_iff.
      intros y. rewrite elem_of_app, list_elem_of_singleton. naive_solver.
Qed.

Lemma dict_fromkeys_first_occurrences (l : list string) :
  dict_fromkeys l = first_occurrences l.
Proof.
  unfold dict_fromkeys. rewrite dict_fromkeys_into_spec. simpl.
  induction (first_occurrences l) as [|y k IH]; [done|].
  rewrite filter_cons_True by apply not_elem_of_nil. by rewrite IH.
Qed.

Lemma topic_window_spec (soup : Page) :
  topic_window soup = take _MAX_TOPICS (first_occurrences (topic_links soup))
  ∧ NoDup (topic_window soup)
  ∧ length (topic_window soup) ≤ _MAX_TOPICS.
Proof.
  unfold topic_window. rewrite dict_fromkeys_first_occurrences.
  split; [done|]. split.
  - apply (sublist_NoDup _ (first_occurrences (topic_links soup))); [apply first_occurrences_NoDup|apply sublist_take].
  - rewrite length_take. lia.
Qed.

Lemma advanced_refl st : advanced [] st st.
Proof. exists (clock st). by destruct st. Qed.

Lemma advanced_trans n1 n2 st st1 st2 :
  advanced n1 st st1 → advanced n2 st1 st2 → advanced (n2 ++ n1) st st2.
Proof.
  intros [c1 ->] [c2 ->]. exists c2. destruct st; simpl.
  unfold set_trace, set_clock; simpl. by rewrite app_assoc.
Qed.

Lemma http_requests_app n1 n2 :
  http_requests (n2 ++ n1) = http_requests n1 ++ http_requests n2.
Proof. unfold http_requests. by rewrite omap_app, rev_app_distr. Qed.

Lemma crawl_topic_spec rel_url acc st :
  ∃ ts new st',
    crawl_topic W B rel_url acc st = (Ret (acc ++ ts), st')
    ∧ advanced new st st'
    ∧ http_requests new = [full_url_of rel_url]
    ∧ map topic_url ts `sublist_of` [full_url_of rel_url]
    ∧ Forall harmless_event new.
Proof.
  destruct st as [cfg task ll topics cc cache clk tr].
  unfold crawl_topic, http_get, advanced; simpl.
  unfold mbind, M_bind, tick, emit, log, emit, modify, mret, M_ret; simpl.
  destruct (scraper_get W clk (full_url_of rel_url)) as [post_soup|]; simpl.
  - destruct (omap (file_of_tag B) (torrent_tags post_soup)) as [|f fs]; simpl.
    + exists [], [EvHttpGet (full_url_of rel_url)]. eexists.
      rewrite app_nil_r. split; [done|]. split; [by exists (S clk)|].
      split; [done|]. split; [apply sublist_nil_l|]. by repeat constructor.
    + eexists [_], [EvHttpGet (full_url_of rel_url)]. eexists.
      split; [done|]. split; [by exists (S clk)|].
      split; [done|]. split; [done|]. by repeat constructor.
  - exists [], [EvLog (LogTopicFailed rel_url); EvHttpGet (full_url_of rel_url)].
    eexists. rewrite app_nil_r. split; [done|]. split; [by exists (S clk)|].
    split; [done|]. split; [apply sublist_nil_l|]. by repeat constructor.
Qed.

Lemma crawl_topics_spec window : ∀ acc st,
  ∃ ts new st',
    for_fold window (crawl_topic W B) acc st = (Ret (acc ++ ts), st')
    ∧ advanced new st st'
    ∧ http_requests new = map full_url_of window
    ∧ map topic_url ts `sublist_of` map full_url_of window
    ∧ Forall harmless_event new.
Proof.
  induction window as [|rel_url window IH]; intros acc st; simpl.
  - exists [], [], st. rewrite app_nil_r.
    split; [done|]. split; [apply advanced_refl|]. by repeat split.
  - destruct (crawl_topic_spec rel_url acc st)
      as (ts0 & new0 & st0 & Hrun0 & Hadv0 & Hreq0 & Hsub0 & Hev0).
    destruct (IH (acc ++ ts0) st0)
      as (ts1 & new1 & st1 & Hrun1 & Hadv1 & Hreq1 & Hsub1 & Hev1).
    exists (ts0 ++ ts1), (new1 ++ new0), st1.
    unfold mbind, M_bind. rewrite Hrun0, Hrun1, app_assoc.
    split; [done|]. split; [by eapply advanced_trans|].
    split; [by rewrite http_requests_app, Hreq0, Hreq1|].
    split; [|by apply Forall_app].
    rewrite map_app.
    by apply (sublist_app _ [full_url_of rel_url] _ (map full_url_of window)).
Qed.

Lemma crawl_tbl_sync_spec st :
  ∃ ts new st',
    _crawl_tbl_sync W B st = (Ret ts, st')
    ∧ advanced new st st'
    ∧ Forall harmless_event new
    ∧ match scraper_get W (clock st) _BASE_URL with
      | None => ts = [] ∧ http_requests new = [_BASE_URL]
      | Some soup =>
          http_requests new = _BASE_URL :: map full_url_of (topic_window soup)
          ∧ map topic_url ts `sublist_of` map full_url_of (topic_window soup)
      end.
Proof.
  unfold _crawl_tbl_sync, http_get.
  unfold mbind at 1 2 3, M_bind, tick, emit, modify, mret, M_ret.
  destruct (scraper_get W (clock st) _BASE_URL) as [soup|] eqn:Hhome.
  - destruct (crawl_topics_spec (topic_window soup) []
                (set_trace (EvHttpGet _BASE_URL :: trace (set_clock (S (clock st)) st))
                   (set_clock (S (clock st)) st)))
      as (ts & new & st' & Hrun & Hadv & Hreq & Hsub & Hev).
    exists ts, (new ++ [EvHttpGet _BASE_URL]), st'.
    split; [exact Hrun|]. split.
    { eapply advanced_trans; [|exact Hadv]. exists (S (clock st)). by destruct st. }
    split; [apply Forall_app; split; [done|by repeat constructor]|].
    split; [|done]. by rewrite http_requests_app, Hreq.
  - eexists [], [EvLog LogHomepageFailed; EvHttpGet _BASE_URL], _.
    unfold log, emit, modify, mbind, M_bind, mret, M_ret.
    split; [done|]. split; [exists (S (clock st)); by destruct st|].
    split; [by repeat constructor|done].
Qed.

End Crawl.

(** C8: whatever the pages hold, one call of [_crawl_tbl_sync] returns at
    most [_MAX_TOPICS] = 15 topics.  The topic [href]s of the homepage are
    taken once each, in the order of their first occurrence, and cut to
    15; those are the only topic pages requested, one request each in that
    order, and the returned topics are topics of that window, in its order.
    The list the poll cycle receives from [_crawl_tbl] is that list. *)
Theorem crawl_returns_bounded_window (W : World) (B : Builtins) (st : State) :
  ∃ ts new st',
    _crawl_tbl_sync W B st = (Ret ts, st')
    ∧ length ts ≤ _MAX_TOPICS
    ∧ _MAX_TOPICS = 15
    ∧ trace st' = new ++ trace st
    ∧ match scraper_get W (clock st) _BASE_URL with
      | None => ts = [] ∧ http_requests new = [_BASE_URL]
      | Some soup =>
          topic_window soup
          = take _MAX_TOPICS (first_occurrences (topic_links soup))
          ∧ NoDup (topic_window soup)
          ∧ length (topic_window soup) ≤ _MAX_TOPICS
          ∧ http_requests new = _BASE_URL :: map full_url_of (topic_window soup)
          ∧ map topic_url ts `sublist_of` map full_url_of (topic_window soup)
      end
    ∧ match _crawl_tbl W B st with
      | (Ret ts', _) => length ts' ≤ _MAX_TOPICS
      | (Raise _, _) => True
      end.
Proof.
  destruct (crawl_tbl_sync_spec W B st) as (ts & new & st' & Hrun & Hadv & _ & Hcase).
  assert (Hlen : ∀ s ts1 s1, _crawl_tbl_sync W B s = (Ret ts1, s1) →
                               length ts1 ≤ _MAX_TOPICS).
  { intros s ts1 s1 Hs.
    destruct (crawl_tbl_sync_spec W B s) as (ts2 & new2 & s2 & Hrun2 & _ & _ & Hc).
    rewrite Hrun2 in Hs. injection Hs as -> ->.
    destruct (scraper_get W (clock s) _BASE_URL) as [soup|].
    - destruct Hc as [_ Hsub]. apply sublist_length in Hsub.
      rewrite !length_map in Hsub.
      pose proof (topic_window_spec soup) as (_ & _ & Hw). lia.
    - destruct Hc as [-> _]. simpl. lia. }
  exists ts, new, st'. split; [done|]. split; [by eapply Hlen|].
  split; [done|]. split.
  { destruct Hadv as [c ->]. by destruct st. }
  split.
  - destruct (scraper_get W (clock st) _BASE_URL) as [soup|]; [|done].
    pose proof (topic_window_spec soup) as (Hw1 & Hw2 & Hw3).
    destruct Hcase. by repeat split.
  - unfold _crawl_tbl, asyncio_to_thread.
    unfold mbind, M_bind.
    destruct (deliver_cancel st) as [[[]|e] s1]; [|done].
    unfold tick. destruct (crawl_fault W (clock s1)); [done|].
    destruct (_crawl_tbl_sync W B (set_clock _ s1)) as [[ts1|e] s2] eqn:Hs; [|done].
    by eapply Hlen.
Qed.

(** ** The monad *)

Lemma bind_run {A B} (m : M A) (f : A → M B) st :
  (m ≫= f) st
  = match m st with
    | (Ret a, st') => f a st'
    | (Raise e, st') => (Raise e, st')
    end.
Proof. reflexivity. Qed.

Ltac mrun :=
  repeat (unfold mbind, M_bind, mret, M_ret, gets, modify, raise, emit, log,
            tick, lift_outcome, try_except, sendMessage; simpl).

Section Steps.
Context (R : State → State → Prop) `{!PreOrder R}.

Lemma steps_ret {A} (a : A) : steps R (mret a).
Proof. intros st. simpl. reflexivity. Qed.

Lemma steps_raise {A} e : steps R (@raise A e).
Proof. intros st. simpl. reflexivity. Qed.

Lemma steps_gets {A} (f : State → A) : steps R (gets f).
Proof. intros st. simpl. reflexivity. Qed.

Lemma steps_lift_outcome {A} (o : outcome A) : steps R (lift_outcome o).
Proof. destruct o; [apply steps_ret|apply steps_raise]. Qed.

Lemma steps_modify f : (∀ st, R st (f st)) → steps R (modify f).
Proof. intros Hf st. apply Hf. Qed.

Lemma steps_bind {A B} (m : M A) (f : A → M B) :
  steps R m → (∀ a, steps R (f a)) → steps R (m ≫= f).
Proof.
  intros Hm Hf st. rewrite bind_run. specialize (Hm st).
  destruct (m st) as [[a|e] st1]; simpl in *; [|done].
  etrans; [exact Hm|apply Hf].
Qed.

Lemma steps_try_except {A} (m : M A) handles handler :
  steps R m → (∀ e, steps R (handler e)) → steps R (try_except m handles handler).
Proof.
  intros Hm Hh st. unfold try_except. specialize (Hm st).
  destruct (m st) as [[a|e] st1]; simpl in *; [done|].
  destruct (handles e); [|done]. etrans; [exact Hm|apply Hh].
Qed.

Lemma steps_for_each {A} (l : list A) body :
  (∀ x, steps R (body x)) → steps R (for_each l body).
Proof.
  intros Hb. induction l as [|x l IH]; simpl.
  - apply steps_ret.
  - apply steps_bind; [apply Hb|]. intros _. exact IH.
Qed.

End Steps.

Lemma steps_mono {A} (R R' : State → State → Prop) (m : M A) :
  (∀ st st', R st st' → R' st st') → steps R m → steps R' m.
Proof. intros HR Hm st. apply HR, Hm. Qed.

(** ** Frames *)

Lemma frame_step_preorder allowed : PreOrder (frame_step allowed).
Proof.
  split.
  - intros st. repeat split. by exists [].
  - intros s1 s2 s3 (H1 & H2 & H3 & H4 & n1 & Hn1 & Ha1)
           (K1 & K2 & K3 & K4 & n2 & Hn2 & Ha2).
    repeat split; try congruence.
    exists (n2 ++ n1). rewrite Hn2, Hn1, app_assoc. split; [done|].
    by apply Forall_app.
Qed.
Global Existing Instance frame_step_preorder.

Lemma frame_step_mono (P Q : Event → Prop) st st' :
  (∀ e, P e → Q e) → frame_step P st st' → frame_step Q st st'.
Proof.
  intros HPQ (H1 & H2 & H3 & H4 & n & Hn & Ha).
  repeat split; try done. exists n. split; [done|].
  eapply Forall_impl; eauto.
Qed.

Lemma delivered_app_l l pre new : delivered l new → delivered l (pre ++ new).
Proof.
  intros (c & p & n & cap & pr & po & ->).
  exists c, p, n, cap, (pre ++ pr), po. by rewrite <- app_assoc.
Qed.

Lemma delivered_app_r l new post : delivered l new → delivered l (new ++ post).
Proof.
  intros (c & p & n & cap & pr & po & ->).
  exists c, p, n, cap, pr, (po ++ post). by rewrite <- app_assoc.
Qed.

Lemma configured_frame st st' :
  config_dict st' = config_dict st →
  _monitor_command_chat st' = _monitor_command_chat st →
  configured st → configured st'.
Proof. unfold configured. by intros -> ->. Qed.

Lemma evolves_preorder : PreOrder evolves.
Proof.
  split.
  - intros st. repeat split; try done. exists []. repeat split; auto.
    + intros l t Hin. by apply elem_of_nil in Hin.
    + intros _ l Hin. by apply elem_of_nil in Hin.
  - intros s1 s2 s3 (H1 & H2 & H3 & H4 & n1 & Hn1 & Hl1 & Ht1 & Hc1)
           (K1 & K2 & K3 & K4 & n2 & Hn2 & Hl2 & Ht2 & Hc2).
    split; [congruence|]. split; [congruence|].
    split; [set_solver|]. split; [set_solver|].
    exists (n2 ++ n1). rewrite Hn2, Hn1, app_assoc. split; [done|].
    split; [|split].
    + intros l Hl. destruct (Hl2 l Hl) as [Hin|Hd].
      * destruct (Hl1 l Hin) as [?|Hd]; [by left|right].
        by apply delivered_app_l.
      * right. by apply delivered_app_r.
    + intros l t [Hin|Hin]%elem_of_app.
      * by apply delivered_app_r, (Ht2 l t).
      * by apply delivered_app_l, (Ht1 l t).
    + intros Hcfg l [Hin|Hin]%elem_of_app.
      * eapply Hc2; [|exact Hin]. by apply (configured_frame s1).
      * by eapply Hc1.
Qed.
Global Existing Instance evolves_preorder.

Lemma frame_step_evolves st st' : frame_step harmless_event st st' → evolves st st'.
Proof.
  intros (H1 & H2 & H3 & H4 & new & Hn & Ha).
  repeat split; try done; try set_solver.
  exists new. split; [done|]. rewrite Forall_forall in Ha.
  split; [|split].
  - intros l Hl. left. by rewrite <- H3.
  - intros l t Hin. by destruct (Ha _ Hin).
  - intros _ l Hin. by destruct (Ha _ Hin).
Qed.

Ltac s_ret := apply steps_ret; apply _.
Ltac s_raise := apply steps_raise; apply _.
Ltac s_gets := apply steps_gets; apply _.
Ltac s_lift := apply steps_lift_outcome; apply _.
Ltac s_modify := apply steps_modify.
Ltac s_bind := apply steps_bind; [apply _| |].
Ltac s_try := apply steps_try_except; [apply _| |].
Ltac s_for_each := apply steps_for_each; [apply _|].

Section Frames.
Context (W : World) (B : Builtins).
Context (P : Event → Prop).

Local Abbreviation R := (frame_step P).

Lemma frame_set_clock c st : R st (set_clock c st).
Proof. repeat split. by exists []. Qed.

Lemma frame_set_cache v st : R st (set_cache v st).
Proof. repeat split. by exists []. Qed.

Lemma frame_set_task v st : R st (set_task v st).
Proof. repeat split. by exists []. Qed.

Lemma frame_add_event e st : P e → R st (set_trace (e :: trace st) st).
Proof. intros He. repeat split. exists [e]. split; [done|]. by constructor. Qed.

Lemma frame_tick : steps R tick.
Proof. intros st. apply frame_set_clock. Qed.

Lemma frame_emit e : P e → steps R (emit e).
Proof. intros He st. by apply frame_add_event. Qed.

Lemma frame_deliver_cancel : steps R deliver_cancel.
Proof.
  intros st. unfold deliver_cancel.
  destruct (_monitor_task st) as [t|]; [|reflexivity].
  destruct (task_must_cancel t); [apply frame_set_task|reflexivity].
Qed.

Lemma frame_to_thread {A} fault (f : M A) :
  steps R f → steps R (asyncio_to_thread fault f).
Proof.
  intros Hf. unfold asyncio_to_thread.
  s_bind; [apply frame_deliver_cancel|]. intros _.
  s_bind; [apply frame_tick|]. intros t.
  destruct (fault t); [s_raise|done].
Qed.

Lemma frame_sleep n : P (EvSleep n) → steps R (asyncio_sleep W n).
Proof.
  intros HP. unfold asyncio_sleep.
  s_bind; [apply frame_deliver_cancel|]. intros _.
  s_bind; [apply frame_tick|]. intros t.
  s_bind; [by apply frame_emit|]. intros _.
  destruct (sleep_fault W t); [s_raise|s_ret].
Qed.

Lemma frame_monitor_finally {A} e : steps R (@monitor_finally W A e).
Proof.
  unfold monitor_finally.
  s_bind; [s_gets|]. intros now.
  destruct (lock_wait_cancelled W now).
  - s_bind; [|intros _; s_raise].
    s_modify. intros st. unfold finish_task. apply frame_set_task.
  - s_bind; [|intros _; s_raise].
    s_modify. intros st. apply frame_set_task.
Qed.

(** The way out of the coroutine: [except CancelledError] and [finally]. *)
Lemma frame_monitor_exit e :
  P (EvLog LogStopped) →
  steps R ((if is_CancelledError e then log LogStopped else mret tt);;
           @monitor_finally W unit e).
Proof.
  intros HP. s_bind; [|intros _; apply frame_monitor_finally].
  destruct (is_CancelledError e); [by apply frame_emit|s_ret].
Qed.

Lemma frame_get_chat chat_ref :
  (∀ r, P (EvGetChat chat_ref r)) → steps R (bot_get_chat W chat_ref).
Proof.
  intros HP. unfold bot_get_chat.
  s_bind; [apply frame_deliver_cancel|]. intros _.
  s_bind; [apply frame_tick|]. intros t.
  s_bind; [by apply frame_emit|]. intros _.
  s_lift.
Qed.

Lemma frame_mirror_leech message :
  (∀ r, P (EvMirrorLeech message r)) → steps R (call_mirror_leech W message).
Proof.
  intros HP. unfold call_mirror_leech.
  s_bind; [apply frame_tick|]. intros t.
  s_bind; [by apply frame_emit|]. intros _.
  s_lift.
Qed.

Lemma frame_resolve chat_ref :
  (∀ r, P (EvGetChat chat_ref r)) → P (EvLog (LogResolveFailed chat_ref)) →
  steps R (_resolve_command_chat W chat_ref).
Proof.
  intros HP1 HP2. unfold _resolve_command_chat.
  s_bind; [s_gets|]. intros cache.
  destruct (cache_hit cache chat_ref); [s_ret|].
  s_bind; [ |].
  - s_try; [|].
    + s_bind; [by apply frame_get_chat|]. intros c.
      s_ret.
    + intros _. s_bind; [by apply frame_emit|]. intros _.
      s_ret.
  - intros [chat|]; [|s_ret].
    s_bind; [ |intros _; s_ret].
    s_modify. intros st. apply frame_set_cache.
Qed.

Lemma frame_queue_leech chat link title :
  (∀ m r, P (EvMirrorLeech m r)) → (∀ s, P (EvLog (LogQueued s))) →
  P (EvLog (LogLeechFailed link)) →
  steps R (queue_leech W chat link title).
Proof.
  intros HP1 HP2 HP3. unfold queue_leech.
  s_bind; [ |].
  { unfold default_stub_type. destruct (stub_type chat); [s_ret|].
    s_bind; [ |intros _; s_ret].
    s_modify. intros st. apply frame_set_cache. }
  intros chat'. s_bind; [s_gets|]. intros now.
  s_try; [|].
  - s_bind; [by apply frame_mirror_leech|]. intros _.
    by apply frame_emit.
  - intros _. by apply frame_emit.
Qed.

Lemma frame_resolve_and_queue chat_ref link title :
  (∀ e, trigger_event e → harmless_event e → P e) →
  steps R (resolve_and_queue W chat_ref link title).
Proof.
  intros HP. unfold resolve_and_queue.
  s_bind; [ |].
  - apply frame_resolve; intros; by apply HP.
  - intros [chat|]; [|s_ret].
    apply frame_queue_leech; intros; by apply HP.
Qed.

Lemma frame_crawl :
  (∀ e, harmless_event e → P e) → steps R (_crawl_tbl W B).
Proof.
  intros HP. apply frame_to_thread. intros st.
  destruct (crawl_tbl_sync_spec W B st) as (ts & new & st' & Hrun & [c ->] & Hev & _).
  rewrite Hrun. simpl. repeat split. exists new. split; [by destruct st|].
  eapply Forall_impl; eauto.
Qed.

End Frames.

Ltac solve_frame :=
  unfold frame_step; simpl; split_and!; try done;
  first [ by (exists []; split; [done|]; repeat constructor)
        | by (eexists [_]; split; [done|]; repeat constructor)
        | by (eexists [_; _]; split; [done|]; repeat constructor)
        | by (eexists [_; _; _]; split; [done|]; repeat constructor)
        | by (eexists [_; _; _; _]; split; [done|]; repeat constructor) ].

Section Pipeline.
Context (W : World) (B : Builtins).

Lemma trigger_unfold link title st :
  _trigger_qbleech W link title st
  = let st1 := set_trace (EvTrigger link title :: trace st) st in
    let chat_ref :=
      py_or (py_or (_monitor_command_chat st)
                   (config_dict st !! "AUTO_TBL_COMMAND_CHAT"))
            (config_dict st !! "AUTO_TBL_CHANNEL") in
    match chat_ref with
    | None => log (LogNotConfigured link) st1
    | Some ref =>
        if negb (truthy chat_ref) then log (LogNotConfigured link) st1
        else resolve_and_queue W ref link title st1
    end.
Proof.
  destruct st. unfold _trigger_qbleech. mrun.
  destruct (py_or _ _); [|done]. by destruct (negb _).
Qed.

Lemma trigger_frame link title st :
  frame_step
    (λ e, e = EvTrigger link title
          ∨ (trigger_event e ∧ (configured st → harmless_event e)))
    st (_trigger_qbleech W link title st).2.
Proof.
  rewrite trigger_unfold. cbv zeta.
  set (P := λ e, _).
  assert (Hstart : frame_step P st (set_trace (EvTrigger link title :: trace st) st)).
  { apply frame_add_event. by left. }
  assert (Hnc : ¬ configured st →
                frame_step P st
                  (log (LogNotConfigured link)
                     (set_trace (EvTrigger link title :: trace st) st)).2).
  { intros Hno. etrans; [exact Hstart|]. apply frame_emit.
    right. split; [done|]. by intros ?. }
  unfold configured in *.
  destruct (py_or _ _) as [ref|] eqn:Href.
  - destruct (truthy (Some ref)) eqn:Htr; simpl.
    + etrans; [exact Hstart|]. apply frame_resolve_and_queue.
      intros e H1 H2. right. by split.
    + apply Hnc. by intros ?.
  - apply Hnc. by intros ?.
Qed.

Lemma process_file_spec chat file_ st :
  frame_step undelivered_event st (process_file W chat file_ st).2
  ∨ ∃ payload st1,
      process_file W chat file_ st
      = _trigger_qbleech W (file_link file_) (file_title file_) st1
      ∧ config_dict st1 = config_dict st
      ∧ _monitor_command_chat st1 = _monitor_command_chat st
      ∧ _monitor_seen_topics st1 = _monitor_seen_topics st
      ∧ _monitor_last_links st1 = {[file_link file_]} ∪ _monitor_last_links st
      ∧ trace st1
        = EvLog (LogPosted (file_title file_))
          :: EvSendDocument chat payload (_sanitize_filename (file_title file_))
               (caption_of file_) (Ret tt)
          :: EvDownload (file_link file_) (Some payload) :: trace st.
Proof.
  destruct st as [cfg task ll topics cc cache clk tr].
  unfold process_file, _download_torrent, asyncio_to_thread,
    _download_torrent_sync, bot_send_document, deliver_cancel.
  destruct task as [[tchat tdone [|]]|]; mrun;
    try (left; solve_frame);
    (destruct (download_fault W clk); mrun; [left; solve_frame|]);
    (destruct (scraper_get_content W (S clk) (file_link file_)) as [payload|];
     mrun; [|left; solve_frame]);
    (destruct (send_document W (S (S clk)) chat payload _ _) as [[]|e]; mrun;
     [|destruct e; simpl; left; solve_frame]);
    right; eexists payload, _; (split; [reflexivity|]); done.
Qed.

Lemma undelivered_harmless e : undelivered_event e → harmless_event e.
Proof. by destruct e as [| | | | | | | | | |[]]. Qed.

Lemma process_file_evolves chat file_ : steps evolves (process_file W chat file_).
Proof.
  intros st.
  destruct (process_file_spec chat file_ st)
    as [Hf|(payload & st1 & Heq & Hc & Hcc & Ht & Hl & Htr)].
  { apply frame_step_evolves. eapply frame_step_mono; [|exact Hf].
    apply undelivered_harmless. }
  rewrite Heq.
  destruct (trigger_frame (file_link file_) (file_title file_) st1)
    as (K1 & K2 & K3 & K4 & tnew & Hn & Ha).
  set (st2 := (_trigger_qbleech W (file_link file_) (file_title file_) st1).2) in *.
  split; [congruence|]. split; [congruence|].
  split; [rewrite K3, Hl; set_solver|]. split; [rewrite K4, Ht; set_solver|].
  eexists (tnew ++ [_; _; _]). rewrite Hn, Htr, <- app_assoc.
  split; [reflexivity|].
  assert (Hd : delivered (file_link file_)
                 (tnew ++ [EvLog (LogPosted (file_title file_));
                           EvSendDocument chat payload
                             (_sanitize_filename (file_title file_))
                             (caption_of file_) (Ret tt);
                           EvDownload (file_link file_) (Some payload)])).
  { eexists _, _, _, _, (tnew ++ [_]), []. by rewrite <- app_assoc. }
  rewrite Forall_forall in Ha.
  split; [|split].
  - intros l. rewrite K3, Hl. intros [->%elem_of_singleton|Hin]%elem_of_union.
    + by right.
    + by left.
  - intros l t [Hin|Hin]%elem_of_app.
    + destruct (Ha _ Hin) as [[= -> ->]|[[] _]]. exact Hd.
    + set_solver.
  - intros Hcfg l [Hin|Hin]%elem_of_app.
    + destruct (Ha _ Hin) as [?|[_ Hh]]; [done|].
      apply Hh. by apply (configured_frame st).
    + set_solver.
Qed.

Lemma process_topic_evolves chat torrent : steps evolves (process_topic W chat torrent).
Proof.
  unfold process_topic.
  s_bind; [s_gets|]. intros seen_links.
  s_bind; [s_gets|]. intros seen_topics.
  destruct (_ && _); [s_ret|].
  s_bind; [s_for_each; apply process_file_evolves|]. intros _.
  s_modify. intros st. split; [done|]. split; [done|].
  split; [done|]. split; [simpl; set_solver|].
  exists []. split; [done|]. split; [by left|]. split; set_solver.
Qed.

Lemma poll_cycle_evolves chat : steps evolves (poll_cycle W B chat).
Proof.
  unfold poll_cycle. s_bind.
  - s_try.
    + eapply steps_mono; [apply frame_step_evolves|]. by apply frame_crawl.
    + intros _. s_bind; [|intros _; s_ret].
      eapply steps_mono; [apply frame_step_evolves|]. by apply frame_emit.
  - intros torrents. s_bind; [s_for_each; apply process_topic_evolves|].
    intros _. eapply steps_mono; [apply frame_step_evolves|]. by apply frame_sleep.
Qed.

Lemma monitor_loop_evolves n chat : steps evolves (monitor_loop W B n chat).
Proof.
  induction n as [|n IH]; simpl; [s_ret|].
  s_bind; [apply poll_cycle_evolves|]. intros _. exact IH.
Qed.

Lemma monitor_evolves n chat : steps evolves (_tamilblasters_monitor W B n chat).
Proof.
  intros st. unfold _tamilblasters_monitor.
  pose proof (monitor_loop_evolves n chat st) as Hloop.
  destruct (monitor_loop W B n chat st) as [[[]|e] st1]; simpl in *; [done|].
  etrans; [exact Hloop|]. apply frame_step_evolves.
  by apply (frame_monitor_exit W harmless_event e).
Qed.

End Pipeline.

(** ** Which exceptions leave which part of the loop *)

Section Containment.
Context (W : World) (B : Builtins) (HW : contained W).

Lemma ro_ret C {A} (a : A) : raises_only C (mret a).
Proof. by intros st Hst. Qed.

Lemma ro_gets C {A} (f : State → A) : raises_only C (gets f).
Proof. by intros st Hst. Qed.

Lemma ro_raise (C : exn → Prop) {A} e : C e → raises_only C (@raise A e).
Proof. by intros He st Hst. Qed.

Lemma ro_modify C f :
  (∀ st, _monitor_task (f st) = _monitor_task st) → raises_only C (modify f).
Proof. intros Hf st Hst. simpl. unfold no_cancel_pending. by rewrite Hf. Qed.

Lemma ro_emit C e : raises_only C (emit e).
Proof. by apply ro_modify. Qed.

Lemma ro_tick C : raises_only C tick.
Proof. by intros st Hst. Qed.

Lemma ro_bind C {A B'} (m : M A) (f : A → M B') :
  raises_only C m → (∀ a, raises_only C (f a)) → raises_only C (m ≫= f).
Proof.
  intros Hm Hf st Hst. rewrite bind_run. specialize (Hm st Hst).
  destruct (m st) as [[a|e] st1]; [|done]. by apply Hf.
Qed.

Lemma ro_try_except (C C' : exn → Prop) {A} (m : M A) handles handler :
  raises_only C m →
  (∀ e, C e → handles e = true → raises_only C' (handler e)) →
  (∀ e, C e → handles e = false → C' e) →
  raises_only C' (try_except m handles handler).
Proof.
  intros Hm Hh Hesc st Hst. unfold try_except. specialize (Hm st Hst).
  destruct (m st) as [[a|e] st1]; [done|]. destruct Hm as [HC Hst1].
  destruct (handles e) eqn:He.
  - by apply Hh.
  - split; auto.
Qed.

Lemma ro_for_each C {A} (l : list A) body :
  (∀ x, raises_only C (body x)) → raises_only C (for_each l body).
Proof.
  intros Hb. induction l as [|x l IH]; simpl; [apply ro_ret|].
  apply ro_bind; [apply Hb|]. intros _. exact IH.
Qed.

Lemma ro_lift_outcome (C : exn → Prop) {A} (o : outcome A) :
  (∀ e, o = Raise e → C e) → raises_only C (lift_outcome o).
Proof. destruct o; intros Ho; [apply ro_ret|apply ro_raise; auto]. Qed.

Lemma ro_deliver_cancel C : raises_only C deliver_cancel.
Proof.
  intros st Hst. unfold deliver_cancel, no_cancel_pending in *.
  destruct (_monitor_task st) as [t|] eqn:Ht; [|by rewrite Ht].
  rewrite Hst. by rewrite Ht.
Qed.

Lemma ro_to_thread (C : exn → Prop) {A} fault (f : M A) :
  (∀ t e, fault t = Some e → C e) → raises_only C f →
  raises_only C (asyncio_to_thread fault f).
Proof.
  intros Hfault Hf. unfold asyncio_to_thread.
  apply ro_bind; [apply ro_deliver_cancel|]. intros _.
  apply ro_bind; [apply ro_tick|]. intros t.
  destruct (fault t) eqn:Ht; [|done]. apply ro_raise. eauto.
Qed.

Lemma ro_crawl : raises_only (λ e, is_Exception e = true) (_crawl_tbl W B).
Proof.
  destruct HW as (Hcrawl & _).
  apply ro_to_thread; [exact Hcrawl|]. intros st Hst.
  destruct (crawl_tbl_sync_spec W B st) as (ts & new & st' & -> & [c ->] & _).
  done.
Qed.

Lemma ro_download url : raises_only no_exn (_download_torrent W url).
Proof.
  destruct HW as (_ & Hdl & _).
  apply ro_to_thread; [intros t e; by rewrite Hdl|].
  unfold _download_torrent_sync.
  apply ro_bind; [apply ro_tick|]. intros t.
  apply ro_bind; [apply ro_emit|]. intros _.
  destruct (scraper_get_content W t url); [apply ro_ret|].
  apply ro_bind; [apply ro_emit|]. intros _. apply ro_ret.
Qed.

Lemma ro_send_document chat payload name cap :
  raises_only (λ e, e = RPCError) (bot_send_document W chat payload name cap).
Proof.
  destruct HW as (_ & _ & Hsend & _). unfold bot_send_document.
  apply ro_bind; [apply ro_deliver_cancel|]. intros _.
  apply ro_bind; [apply ro_tick|]. intros t.
  apply ro_bind; [apply ro_emit|]. intros _.
  apply ro_lift_outcome. intros e. apply Hsend.
Qed.

Lemma ro_get_chat chat_ref :
  raises_only (λ e, e = RPCError) (bot_get_chat W chat_ref).
Proof.
  destruct HW as (_ & _ & _ & Hget & _). unfold bot_get_chat.
  apply ro_bind; [apply ro_deliver_cancel|]. intros _.
  apply ro_bind; [apply ro_tick|]. intros t.
  apply ro_bind; [apply ro_emit|]. intros _.
  apply ro_lift_outcome. intros e. apply Hget.
Qed.

Lemma ro_mirror_leech message :
  raises_only (λ e, is_Exception e = true) (call_mirror_leech W message).
Proof.
  destruct HW as (_ & _ & _ & _ & Hml & _). unfold call_mirror_leech.
  apply ro_bind; [apply ro_tick|]. intros t.
  apply ro_bind; [apply ro_emit|]. intros _.
  apply ro_lift_outcome. intros e. apply Hml.
Qed.

Lemma ro_sleep n : raises_only no_exn (asyncio_sleep W n).
Proof.
  destruct HW as (_ & _ & _ & _ & _ & Hsleep). unfold asyncio_sleep.
  apply ro_bind; [apply ro_deliver_cancel|]. intros _.
  apply ro_bind; [apply ro_tick|]. intros t.
  apply ro_bind; [apply ro_emit|]. intros _.
  rewrite Hsleep. apply ro_ret.
Qed.

Lemma ro_resolve chat_ref : raises_only no_exn (_resolve_command_chat W chat_ref).
Proof.
  unfold _resolve_command_chat.
  apply ro_bind; [apply ro_gets|]. intros cache.
  destruct (cache_hit cache chat_ref); [apply ro_ret|].
  apply ro_bind.
  - eapply ro_try_except.
    + apply ro_bind; [apply ro_get_chat|]. intros c. apply ro_ret.
    + intros e _ _. apply ro_bind; [apply ro_emit|]. intros _. apply ro_ret.
    + by intros e ->.
  - intros [chat|]; [|apply ro_ret].
    apply ro_bind; [by apply ro_modify|]. intros _. apply ro_ret.
Qed.

Lemma ro_queue_leech chat link title :
  raises_only no_exn (queue_leech W chat link title).
Proof.
  unfold queue_leech. apply ro_bind.
  { unfold default_stub_type. destruct (stub_type chat); [apply ro_ret|].
    apply ro_bind; [by apply ro_modify|]. intros _. apply ro_ret. }
  intros chat'. apply ro_bind; [apply ro_gets|]. intros now.
  eapply ro_try_except.
  - apply ro_bind; [apply ro_mirror_leech|]. intros _. apply ro_emit.
  - intros e _ _. apply ro_emit.
  - intros e He. simpl in He. by rewrite He.
Qed.

Lemma ro_trigger link title : raises_only no_exn (_trigger_qbleech W link title).
Proof.
  unfold _trigger_qbleech.
  apply ro_bind; [apply ro_emit|]. intros _.
  apply ro_bind; [apply ro_gets|]. intros override.
  apply ro_bind; [apply ro_gets|]. intros cfg.
  destruct (py_or _ _) as [ref|]; [|apply ro_emit].
  destruct (negb _); [apply ro_emit|].
  unfold resolve_and_queue. apply ro_bind; [apply ro_resolve|].
  intros [chat|]; [apply ro_queue_leech|apply ro_ret].
Qed.

Lemma ro_process_file chat file_ : raises_only no_exn (process_file W chat file_).
Proof.
  unfold process_file.
  apply ro_bind; [apply ro_download|]. intros [payload|]; [|apply ro_ret].
  apply ro_bind.
  - eapply ro_try_except.
    + apply ro_bind; [apply ro_send_document|]. intros _.
      apply ro_bind; [by apply ro_modify|]. intros _.
      apply ro_bind; [apply ro_emit|]. intros _. apply ro_ret.
    + intros e _ _. apply ro_bind; [apply ro_emit|]. intros _. apply ro_ret.
    + by intros e ->.
  - intros [|]; [apply ro_trigger|apply ro_ret].
Qed.

Lemma ro_process_topic chat torrent :
  raises_only no_exn (process_topic W chat torrent).
Proof.
  unfold process_topic.
  apply ro_bind; [apply ro_gets|]. intros seen_links.
  apply ro_bind; [apply ro_gets|]. intros seen_topics.
  destruct (_ && _); [apply ro_ret|].
  apply ro_bind; [apply ro_for_each, ro_process_file|]. intros _.
  by apply ro_modify.
Qed.

Lemma ro_poll_cycle chat : raises_only no_exn (poll_cycle W B chat).
Proof.
  unfold poll_cycle. apply ro_bind.
  - eapply ro_try_except.
    + apply ro_crawl.
    + intros e _ _. apply ro_bind; [apply ro_emit|]. intros _. apply ro_ret.
    + intros e He. simpl in He. by rewrite He.
  - intros torrents.
    apply ro_bind; [apply ro_for_each, ro_process_topic|]. intros _.
    apply ro_sleep.
Qed.

Lemma ro_monitor_loop n chat : raises_only no_exn (monitor_loop W B n chat).
Proof.
  induction n as [|n IH]; simpl; [apply ro_ret|].
  apply ro_bind; [apply ro_poll_cycle|]. intros _. exact IH.
Qed.

End Containment.

(** ** The dedup store *)

Lemma events_since_app st st' new :
  trace st' = new ++ trace st → events_since st st' = new.
Proof.
  intros H. unfold events_since. rewrite H, length_app.
  replace (length new + length (trace st) - length (trace st)) with (length new) by lia.
  by rewrite take_app_length.
Qed.

Lemma new_files_of_elem seen torrent file_ :
  file_ ∈ new_files_of seen torrent ↔ (file_link file_ ∉ seen) ∧ file_ ∈ links torrent.
Proof. unfold new_files_of. by rewrite list_elem_of_filter. Qed.

Lemma new_files_of_nil seen torrent :
  (∀ f, f ∈ links torrent → file_link f ∈ seen) → new_files_of seen torrent = [].
Proof.
  intros Hall. unfold new_files_of.
  induction (links torrent) as [|f l IH]; [done|].
  rewrite filter_cons_False; [|intros Hf; apply Hf, Hall; by left].
  apply IH. intros g Hg. apply Hall. by right.
Qed.

Ltac by_compute :=
  match goal with |- ?P => apply (bool_decide_unpack P); by vm_compute end.

Lemma refusing_contained : contained Example.refusing.
Proof.
  repeat split; simpl; try done.
  - intros [|t] e; by intros [= <-].
  - intros _ _ _ _ _ e. by intros [= <-].
  - intros _ _ e. by intros [= <-].
  - intros _ _ e. by intros [= <-].
Defined.

Section Topics.
Context (W : World) (B : Builtins).

(** When the topic is not skipped, [process_topic] is the loop over its
    new files followed by the marking of the topic. *)
Lemma process_topic_not_skipped chat torrent st :
  topic_url torrent ∉ _monitor_seen_topics st
  ∨ new_files_of (_monitor_last_links st) torrent ≠ [] →
  process_topic W chat torrent st
  = (for_each (new_files_of (_monitor_last_links st) torrent) (process_file W chat);;
     modify (λ st, set_seen_topics
                     ({[topic_url torrent]} ∪ _monitor_seen_topics st) st)) st.
Proof.
  intros Hns. unfold process_topic, mbind, M_bind, gets.
  repeat case_bool_decide; simpl; try done. by destruct Hns.
Qed.

Lemma process_topic_marks chat torrent st st' :
  topic_url torrent ∉ _monitor_seen_topics st
  ∨ new_files_of (_monitor_last_links st) torrent ≠ [] →
  process_topic W chat torrent st = (Ret tt, st') →
  topic_url torrent ∈ _monitor_seen_topics st'.
Proof.
  intros Hns. rewrite process_topic_not_skipped by done. rewrite bind_run.
  destruct (for_each _ _ st) as [[[]|e] st1]; [|done].
  intros [= <-]. simpl. set_solver.
Qed.

End Topics.



(** C6: a topic that is in [_monitor_seen_topics] and whose files are all
    in [_monitor_last_links] costs the cycle nothing: [process_topic]
    returns with the state as it was, so nothing is fetched, sent or
    triggered (the trace is the same) and the topic is not added again. *)
Theorem seen_topic_without_new_files_is_skipped
    (W : World) (chat : ChatRef) (torrent : Topic) (st : State) :
  topic_url torrent ∈ _monitor_seen_topics st →
  (∀ f, f ∈ links torrent → file_link f ∈ _monitor_last_links st) →
  process_topic W chat torrent st = (Ret tt, st).
Proof.
  intros Hseen Hall. unfold process_topic, mbind, M_bind, gets.
  rewrite (new_files_of_nil _ _ Hall).
  by rewrite bool_decide_eq_true_2.
Qed.

Lemma seen_topic_skipped_witness :
  Example.topic1.(topic_url) ∈ _monitor_seen_topics Example.delivered_once
  ∧ process_topic Example.calm Example.upload_chat Example.topic1
      Example.delivered_once = (Ret tt, Example.delivered_once).
Proof.
  assert (Hseen : Example.topic1.(topic_url)
                  ∈ _monitor_seen_topics Example.delivered_once).
  { by_compute. }
  split; [exact Hseen|].
  apply seen_topic_without_new_files_is_skipped; [exact Hseen|].
  intros f ->%list_elem_of_singleton.
  by_compute.
Defined.

(** ** Marking a topic *)

Lemma downloads_app a b : downloads (a ++ b) = downloads b ++ downloads a.
Proof. unfold downloads. by rewrite omap_app, rev_app_distr. Qed.

Lemma downloads_trigger link title st (new : list Event) :
  Forall (λ e, e = EvTrigger link title
               ∨ (trigger_event e ∧ (configured st → harmless_event e))) new →
  downloads new = [].
Proof.
  induction 1 as [|e new He _ IH]; [done|].
  change (e :: new) with ([e] ++ new). rewrite downloads_app, IH.
  destruct He as [->|[He _]]; [done|]. by destruct e.
Qed.

Section Files.
Context (W : World) (B : Builtins).

(** The pipeline of a file begins with one download of its link and
    downloads nothing else. *)
Lemma process_file_download chat file_ st :
  no_cancel_pending st → download_fault W (clock st) = None →
  ∃ new, trace (process_file W chat file_ st).2 = new ++ trace st
         ∧ downloads new = [file_link file_].
Proof.
  intros Hst Hdl.
  destruct st as [cfg task ll topics cc cache clk tr]; simpl in *.
  unfold no_cancel_pending in Hst; simpl in Hst.
  assert (Htask : task = None
                  ∨ ∃ tchat tdone, task = Some (mkTask tchat tdone false)).
  { destruct task as [[tchat tdone tcancel]|]; [right|by left].
    simpl in Hst. subst. eauto. }
  unfold process_file, _download_torrent, asyncio_to_thread,
    _download_torrent_sync, bot_send_document, deliver_cancel.
  destruct Htask as [->|(tchat & tdone & ->)]; mrun; rewrite Hdl; mrun;
    (destruct (scraper_get_content W (S clk) (file_link file_)) as [payload|];
     mrun; [|by eexists [_; _]]);
    (destruct (send_document W (S (S clk)) chat payload _ _) as [[]|e]; mrun;
     [|destruct e; simpl; first [by eexists [_; _; _]|by eexists [_; _]]]);
    match goal with
    | |- context [_trigger_qbleech W ?l ?t ?s] =>
        destruct (trigger_frame W l t s) as (_ & _ & _ & _ & tnew & Hn & Ha);
          rewrite Hn; simpl;
          exists (tnew ++ [EvLog (LogPosted (file_title file_));
                           EvSendDocument chat payload
                             (_sanitize_filename (file_title file_))
                             (caption_of file_) (Ret tt);
                           EvDownload (file_link file_) (Some payload)]);
          (split; [by rewrite <- app_assoc|]);
          by rewrite downloads_app, (downloads_trigger _ _ _ _ Ha)
    end.
Qed.

(** With the failures the pipeline handles, the loop over the new files
    runs every file through the pipeline, in order, and completes. *)
Lemma files_run chat (HW : contained W) (files : list File) : ∀ st,
  no_cancel_pending st →
  ∃ new st',
    for_each files (process_file W chat) st = (Ret tt, st')
    ∧ no_cancel_pending st'
    ∧ trace st' = new ++ trace st
    ∧ downloads new = file_link <$> files.
Proof.
  induction files as [|file_ files IH]; intros st Hst.
  - by exists [], st.
  - simpl. rewrite bind_run.
    pose proof (ro_process_file W HW chat file_ st Hst) as Hro.
    destruct (process_file_download chat file_ st Hst) as (n1 & Hn1 & Hd1).
    { by destruct HW as (_ & Hdl & _). }
    destruct (process_file W chat file_ st) as [[[]|e] s1]; simpl in *;
      [|by destruct Hro].
    destruct (IH s1 Hro) as (n2 & st' & Hrun & Hst' & Hn2 & Hd2).
    exists (n2 ++ n1), st'. split; [done|]. split; [done|].
    split; [by rewrite Hn2, Hn1, app_assoc|].
    by rewrite downloads_app, Hd1, Hd2.
Qed.

(** The pipeline of a file does not touch [_monitor_seen_topics]. *)
Lemma files_keep_topics chat (files : list File) : ∀ st,
  _monitor_seen_topics (for_each files (process_file W chat) st).2
  = _monitor_seen_topics st.
Proof.
  induction files as [|file_ files IH]; intros st; [done|].
  simpl. rewrite bind_run.
  assert (Hfile : _monitor_seen_topics (process_file W chat file_ st).2
                  = _monitor_seen_topics st).
  { destruct (process_file_spec W chat file_ st)
      as [(_ & _ & _ & H4 & _)|(payload & st1 & Heq & _ & _ & Ht & _)]; [done|].
    rewrite Heq.
    destruct (trigger_frame W (file_link file_) (file_title file_) st1)
      as (_ & _ & _ & K4 & _).
    by rewrite K4. }
  destruct (process_file W chat file_ st) as [[[]|e] s1]; simpl in *; [|done].
  by rewrite IH.
Qed.

End Files.

(** C5, as stated, fails: [send_document] raises an error that is not an
    [RPCError] for the one new file of a topic that is not skipped; the
    loop over the files is left with that error and the topic is not
    marked. *)
Lemma topic_unmarked_when_send_breaks :
  new_files_of (_monitor_last_links Example.started) Example.topic1
  = [Example.file1]
  ∧ elements (_monitor_seen_topics Example.started) = []
  ∧ (process_topic Example.broken_send Example.upload_chat Example.topic1
       Example.started).1 = Raise OtherException
  ∧ elements (_monitor_seen_topics
                (process_topic Example.broken_send Example.upload_chat
                   Example.topic1 Example.started).2) = [].
Proof. by vm_compute. Qed.

(** C5, amended: a topic that is not skipped is marked seen when, and only
    when, the loop over its new files completes.  If [process_topic]
    returns, [_monitor_seen_topics] has gained the topic's URL and nothing
    else; if it raises, the set is as it was.  Where the failures are the
    ones the pipeline handles (no payload, [RPCError] from the send or the
    chat lookup, any [Exception] from [_mirror_leech], no cancellation),
    it does return: every new file has been run through the pipeline, once
    each and in order, the topic is marked, even if every file failed, and
    a new file that was not delivered has its link still absent from
    [_monitor_last_links]. *)
Theorem topic_marked_seen_after_its_files
    (W : World) (chat : ChatRef) (torrent : Topic) (st : State) :
  topic_url torrent ∉ _monitor_seen_topics st
  ∨ new_files_of (_monitor_last_links st) torrent ≠ [] →
  (∀ st', process_topic W chat torrent st = (Ret tt, st') →
          _monitor_seen_topics st' = {[topic_url torrent]} ∪ _monitor_seen_topics st)
  ∧ (∀ e st', process_topic W chat torrent st = (Raise e, st') →
              _monitor_seen_topics st' = _monitor_seen_topics st)
  ∧ (contained W → no_cancel_pending st →
     ∃ st', process_topic W chat torrent st = (Ret tt, st')
            ∧ topic_url torrent ∈ _monitor_seen_topics st'
            ∧ downloads (events_since st st')
              = file_link <$> new_files_of (_monitor_last_links st) torrent
            ∧ ∀ f, f ∈ new_files_of (_monitor_last_links st) torrent →
                   ¬ delivered (file_link f) (events_since st st') →
                   file_link f ∉ _monitor_last_links st').
Proof.
  intros Hns.
  assert (Hret : ∀ st', process_topic W chat torrent st = (Ret tt, st') →
            _monitor_seen_topics st'
            = {[topic_url torrent]} ∪ _monitor_seen_topics st).
  { intros st'. rewrite process_topic_not_skipped by done. rewrite bind_run.
    pose proof (files_keep_topics W chat
                  (new_files_of (_monitor_last_links st) torrent) st) as Hkeep.
    destruct (for_each _ _ st) as [[[]|e] st1]; [|done].
    intros [= <-]. simpl in *. by rewrite Hkeep. }
  split; [exact Hret|]. split.
  - intros e st'. rewrite process_topic_not_skipped by done. rewrite bind_run.
    pose proof (files_keep_topics W chat
                  (new_files_of (_monitor_last_links st) torrent) st) as Hkeep.
    destruct (for_each _ _ st) as [[[]|e1] st1]; [done|].
    by intros [= <- <-].
  - intros HW Hst.
    pose proof (process_topic_evolves W chat torrent st) as Hev.
    destruct (files_run W chat HW (new_files_of (_monitor_last_links st) torrent)
                st Hst) as (new & st1 & Hrun & _ & Hn & Hd).
    assert (Htopic : process_topic W chat torrent st
                     = (Ret tt,
                        set_seen_topics
                          ({[topic_url torrent]} ∪ _monitor_seen_topics st1) st1)).
    { rewrite process_topic_not_skipped by done. rewrite bind_run. by rewrite Hrun. }
    rewrite Htopic in Hev. eexists. split; [exact Htopic|].
    split; [simpl; set_solver|].
    assert (Hsince : events_since st
                       (set_seen_topics
                          ({[topic_url torrent]} ∪ _monitor_seen_topics st1) st1)
                     = new) by (by apply events_since_app).
    rewrite Hsince. split; [done|].
    destruct Hev as (_ & _ & _ & _ & ev & Hn' & Hl & _). simpl in *.
    assert (ev = new) as -> by (rewrite Hn in Hn'; by apply app_inv_tail in Hn').
    intros f [Hnew _]%new_files_of_elem Hnd Hin.
    by destruct (Hl _ Hin).
Qed.

Lemma topic_marked_seen_witness :
  ∃ st', process_topic Example.refusing Example.upload_chat Example.topic1
           Example.started = (Ret tt, st')
         ∧ Example.topic1.(topic_url) ∈ _monitor_seen_topics st'
         ∧ downloads (events_since Example.started st')
           = file_link <$> new_files_of (_monitor_last_links Example.started)
                             Example.topic1
         ∧ ∀ f, f ∈ new_files_of (_monitor_last_links Example.started) Example.topic1 →
                ¬ delivered (file_link f) (events_since Example.started st') →
                file_link f ∉ _monitor_last_links st'.
Proof.
  assert (Hns : Example.topic1.(topic_url) ∉ _monitor_seen_topics Example.started
                ∨ new_files_of (_monitor_last_links Example.started) Example.topic1 ≠ []).
  { right. by vm_compute. }
  destruct (topic_marked_seen_after_its_files Example.refusing Example.upload_chat
              Example.topic1 Example.started Hns) as (_ & _ & Hrun).
  apply Hrun; [exact refusing_contained|reflexivity].
Defined.

(** ** Start and stop *)

Lemma start_monitor_spec message st :
  _start_monitor message st
  = if truthy (config_dict st !! "AUTO_TBL_CHANNEL") then
      if task_running st then
        (Ret AlreadyRunning,
         set_trace (EvSendMessage "TamilBlasters auto-leech is already running."
                    :: trace st) st)
      else
        (Ret Started,
         mkState (config_dict st)
           (Some (mkTask (default (ChatId 0) (config_dict st !! "AUTO_TBL_CHANNEL"))
                    false false))
           (_monitor_last_links st) (_monitor_seen_topics st)
           (py_or (config_dict st !! "AUTO_TBL_COMMAND_CHAT")
                  (Some (ChatId (message_chat_id message))))
           None (clock st)
           (EvSendMessage "TamilBlasters auto-leech started. New torrents will be posted automatically."
            :: EvCreateTask (default (ChatId 0) (config_dict st !! "AUTO_TBL_CHANNEL"))
            :: trace st))
    else
      (Ret Misconfigured,
       set_trace (EvSendMessage "AUTO_TBL_CHANNEL is not configured. Set it in the environment to enable this feature."
                  :: trace st) st).
Proof.
  destruct st as [cfg task ll topics cc cache clk tr].
  unfold _start_monitor. mrun.
  destruct (cfg !! "AUTO_TBL_CHANNEL") as [upload_chat|]; [|done].
  unfold task_running; simpl.
  destruct upload_chat as [id|name]; simpl;
    [destruct (id =? 0)%Z|destruct (String.eqb name "")]; simpl; try done;
    by destruct task as [[? [] ?]|].
Qed.

Section StartStop.
Context (W : World) (B : Builtins).

(** A pending cancellation is thrown in at the first suspension point of
    the poll cycle and leaves the loop. *)
Lemma cancelled_poll_cycle chat st t :
  _monitor_task st = Some t → task_must_cancel t = true →
  poll_cycle W B chat st
  = (Raise CancelledError,
     set_task (Some (mkTask (task_upload_chat t) (task_done t) false)) st).
Proof.
  intros Ht Hc. unfold poll_cycle, _crawl_tbl, asyncio_to_thread.
  unfold mbind at 1, M_bind, try_except. unfold mbind at 1, M_bind.
  unfold deliver_cancel. by rewrite Ht, Hc.
Qed.

Lemma cancelled_monitor_exits n chat st t :
  _monitor_task st = Some t → task_must_cancel t = true →
  _tamilblasters_monitor W B (S n) chat st
  = (Raise CancelledError,
     (if lock_wait_cancelled W (clock st) then finish_task else set_task None)
       (set_trace (EvLog LogStopped :: trace st) st)).
Proof.
  intros Ht Hc. unfold _tamilblasters_monitor. simpl.
  unfold mbind at 1, M_bind. rewrite (cancelled_poll_cycle chat st t Ht Hc).
  destruct st as [cfg task ll topics cc cache clk tr]; simpl in *. subst task.
  unfold monitor_finally, finish_task. mrun.
  by destruct (lock_wait_cancelled W clk).
Qed.

(** A stop request while a task is running: the task is cancelled and
    awaited, and ends before its first step, or in its loop with the
    handle cleared, or in its loop with the [finally] cancelled. *)
Lemma stop_monitor_spec n message st :
  _stop_monitor W B (S n) message st
  = if task_running st then
      (Ret (Some Stopped),
       if first_step_pending W (clock st) then
         finish_task
           (set_trace (EvSendMessage "TamilBlasters auto-leech stopped."
                       :: EvCancel :: trace st) st)
       else
         (if lock_wait_cancelled W (clock st) then finish_task
          else set_task None)
           (set_trace (EvSendMessage "TamilBlasters auto-leech stopped."
                       :: EvLog LogStopped :: EvCancel :: trace st) st))
    else
      (Ret (Some NotRunning),
       set_trace (EvSendMessage "TamilBlasters auto-leech is not running."
                  :: trace st) st).
Proof.
  unfold _stop_monitor. unfold mbind at 1, M_bind, gets.
  destruct (task_running st) eqn:Hrun; simpl; [|done].
  unfold task_running in Hrun.
  destruct (_monitor_task st) as [t|] eqn:Ht; [|done].
  unfold mbind at 1, M_bind, task_cancel.
  unfold mbind at 1, M_bind, emit, modify.
  unfold mbind at 1, M_bind, try_except, await_monitor_task.
  unfold mbind at 1, M_bind, gets. simpl. rewrite Ht. simpl.
  unfold mbind at 1, M_bind. simpl.
  destruct (first_step_pending W (clock st)); simpl.
  - unfold finish_task. mrun. rewrite Ht. by destruct st.
  - unfold mbind at 1, M_bind.
    erewrite cancelled_monitor_exits by (simpl; done).
    unfold finish_task. simpl.
    destruct (lock_wait_cancelled W (clock st)); simpl; rewrite ?Ht; by destruct st.
Qed.

Lemma stop_monitor_zero message st :
  _monitor_last_links (_stop_monitor W B 0 message st).2 = _monitor_last_links st
  ∧ _monitor_seen_topics (_stop_monitor W B 0 message st).2 = _monitor_seen_topics st.
Proof.
  destruct st as [cfg task ll topics cc cache clk tr].
  unfold _stop_monitor, await_monitor_task, task_cancel, task_running. mrun.
  destruct task as [[? [] ?]|]; simpl; try done.
  by destruct (first_step_pending W clk).
Qed.

End StartStop.

Lemma truthy_py_or_l a b : truthy a = true → truthy (py_or a b) = true.
Proof. intros Ha. unfold py_or. by rewrite Ha. Qed.

Lemma truthy_py_or_r a b : truthy b = true → truthy (py_or a b) = true.
Proof. intros Hb. unfold py_or. by destruct (truthy a) eqn:Ha. Qed.

Lemma truthy_is_Some v : truthy v = true → ∃ ref, v = Some ref.
Proof. destruct v; [eauto|done]. Qed.

Lemma started_state message st st1 :
  _start_monitor message st = (Ret Started, st1) →
  truthy (config_dict st !! "AUTO_TBL_CHANNEL") = true
  ∧ config_dict st1 = config_dict st
  ∧ _monitor_command_chat st1
    = py_or (config_dict st !! "AUTO_TBL_COMMAND_CHAT")
            (Some (ChatId (message_chat_id message)))
  ∧ _command_chat_cache st1 = None.
Proof.
  rewrite start_monitor_spec.
  destruct (truthy _) eqn:Hcfg; [|done].
  destruct (task_running st); [done|]. by intros [= <-].
Qed.

(** C2, as stated, fails: with the monitor running, a start request made
    after [AUTO_TBL_CHANNEL] was removed from the configuration is answered
    with the configuration error, not with "already running". *)
Lemma start_while_running_unconfigured :
  task_running (set_config ∅ Example.started) = true
  ∧ (_start_monitor Example.operator (set_config ∅ Example.started)).1
    = Ret Misconfigured
  ∧ (_start_monitor Example.operator (set_config ∅ Example.started)).1
    ≠ Ret AlreadyRunning.
Proof. by vm_compute. Qed.

(** C2, amended: a start request made while a monitor task is running and
    not finished has no side effect: the state is left as it was but for
    the reply to the operator, so the cache is not reset, the recorded
    command chat is unchanged and no task is created.  The reply is
    "already running" when [AUTO_TBL_CHANNEL] is configured at that time,
    and the configuration error otherwise. *)
Theorem start_while_running_has_no_side_effects (message : Message) (st : State) :
  task_running st = true →
  ∃ text,
    _start_monitor message st
    = (Ret (if truthy (config_dict st !! "AUTO_TBL_CHANNEL")
            then AlreadyRunning else Misconfigured),
       set_trace (EvSendMessage text :: trace st) st).
Proof.
  intros Hrun. rewrite start_monitor_spec, Hrun.
  destruct (truthy _); eauto.
Qed.

Lemma start_while_running_witness :
  task_running Example.started = true
  ∧ ∃ text,
      _start_monitor Example.operator Example.started
      = (Ret (if truthy (config_dict Example.started !! "AUTO_TBL_CHANNEL")
              then AlreadyRunning else Misconfigured),
         set_trace (EvSendMessage text :: trace Example.started) Example.started).
Proof.
  split; [reflexivity|].
  apply start_while_running_has_no_side_effects. reflexivity.
Defined.

(** C4, as stated, fails: after one cycle that delivered two files, a stop
    and a new start, the run that begins finds both links in
    [_monitor_last_links] and both topics in [_monitor_seen_topics]. *)
Lemma dedup_store_survives_restart :
  (_stop_monitor Example.calm Example.builtins 1 Example.operator
     Example.delivered_once).1 = Ret (Some Stopped)
  ∧ (_start_monitor Example.operator
       (_stop_monitor Example.calm Example.builtins 1 Example.operator
          Example.delivered_once).2).1 = Ret Started
  ∧ elements (_monitor_last_links
       (_start_monitor Example.operator
          (_stop_monitor Example.calm Example.builtins 1 Example.operator
             Example.delivered_once).2).2) = ["L1"; "L2"]
  ∧ elements (_monitor_seen_topics
       (_start_monitor Example.operator
          (_stop_monitor Example.calm Example.builtins 1 Example.operator
             Example.delivered_once).2).2)
    = ["https://www.1tamilmv.land//forums/topic/1";
       "https://www.1tamilmv.land//forums/topic/2"].
Proof. by vm_compute. Qed.

(** C4, amended: the two dedup sets are empty when the module is loaded,
    and neither a start request nor a stop request changes them: the first
    run of the process begins with empty sets, and a run started after an
    earlier run was stopped begins with the sets as that run left them. *)
Theorem dedup_store_kept_by_start_and_stop (W : World) (B : Builtins) :
  (∀ cfg, _monitor_last_links (initial_state cfg) = ∅
          ∧ _monitor_seen_topics (initial_state cfg) = ∅)
  ∧ (∀ message st,
       _monitor_last_links (_start_monitor message st).2 = _monitor_last_links st
       ∧ _monitor_seen_topics (_start_monitor message st).2 = _monitor_seen_topics st)
  ∧ (∀ n message st,
       _monitor_last_links (_stop_monitor W B n message st).2 = _monitor_last_links st
       ∧ _monitor_seen_topics (_stop_monitor W B n message st).2
         = _monitor_seen_topics st).
Proof.
  split; [done|]. split.
  - intros message st. rewrite start_monitor_spec.
    destruct (truthy _); [destruct (task_running st)|]; done.
  - intros [|n] message st; [apply stop_monitor_zero|].
    rewrite stop_monitor_spec. destruct (task_running st); [|done].
    destruct (first_step_pending W (clock st)); [done|].
    by destruct (lock_wait_cancelled W (clock st)).
Qed.

(** ** Errors and cancellation *)

(** C3, as stated, fails: [send_document] raises an error that is not an
    [RPCError]; with no cancellation requested, the first poll cycle ends
    the monitor with that error (and the handle is cleared). *)
Lemma monitor_dies_on_unexpected_send_error :
  _monitor_task Example.started = Some (mkTask Example.upload_chat false false)
  ∧ (_tamilblasters_monitor Example.broken_send Example.builtins 1
       Example.upload_chat Example.started).1 = Raise OtherException
  ∧ _monitor_task
      (_tamilblasters_monitor Example.broken_send Example.builtins 1
         Example.upload_chat Example.started).2 = None.
Proof. by vm_compute. Qed.

(** The handle is not cleared on every exit: when the [finally] is
    cancelled while it waits for the lock, and when the task is cancelled
    before its first step (then nothing is logged either), a stop request
    leaves the finished task in [_monitor_task]; a start request made
    afterwards still starts a run. *)
Lemma stop_can_leave_the_finished_task :
  _stop_monitor Example.contended Example.builtins 1 Example.operator
    Example.started
  = (Ret (Some Stopped),
     set_task (Some (mkTask Example.upload_chat true false))
       (set_trace (EvSendMessage "TamilBlasters auto-leech stopped."
                   :: EvLog LogStopped :: EvCancel :: trace Example.started)
          Example.started))
  ∧ _stop_monitor Example.early_stop Example.builtins 1 Example.operator
      Example.started
    = (Ret (Some Stopped),
       set_task (Some (mkTask Example.upload_chat true false))
         (set_trace (EvSendMessage "TamilBlasters auto-leech stopped."
                     :: EvCancel :: trace Example.started)
            Example.started))
  ∧ (_start_monitor Example.operator
       (_stop_monitor Example.early_stop Example.builtins 1 Example.operator
          Example.started).2).1 = Ret Started.
Proof. by vm_compute. Qed.

(** C3, amended: the errors the handlers are written for do not end the
    loop: when the crawl raises any [Exception], a payload cannot be
    fetched, [send_document] or [get_chat] raise [RPCError], or
    [_mirror_leech] raises any [Exception], and no cancellation is pending,
    the monitor is still running after any number of cycles.  A requested
    cancellation ends the loop at its next suspension point, with the
    "stopped" record, and [_stop_monitor] returns with the task ended.
    When the coroutine exits, whatever the exception, its [finally] clears
    [_monitor_task], unless it is cancelled while it waits for the lock:
    then the coroutine ends with [CancelledError] and the handle keeps the
    task, done.  Either way no task is running after the exit or after the
    stop, and a start request with the destination configured then starts
    a new run. *)
Theorem monitor_contains_expected_errors (W : World) (B : Builtins) (chat : ChatRef) :
  (∀ n st, contained W → no_cancel_pending st →
           ∃ st', _tamilblasters_monitor W B n chat st = (Ret tt, st'))
  ∧ (∀ n st,
       match _tamilblasters_monitor W B n chat st with
       | (Raise e, st') =>
           task_running st' = false
           ∧ ∃ e0, (monitor_loop W B n chat st).1 = Raise e0
               ∧ if lock_wait_cancelled W (clock st')
                 then e = CancelledError
                      ∧ _monitor_task st'
                        = _monitor_task (finish_task (monitor_loop W B n chat st).2)
                 else e = e0 ∧ _monitor_task st' = None
       | (Ret _, st') => monitor_loop W B n chat st = (Ret tt, st')
       end)
  ∧ (∀ n st t, _monitor_task st = Some t → task_must_cancel t = true →
               ∃ st', _tamilblasters_monitor W B (S n) chat st
                      = (Raise CancelledError, st')
                      ∧ task_running st' = false
                      ∧ events_since st st' = [EvLog LogStopped])
  ∧ (∀ n message st, task_running st = true →
                     ∃ st', _stop_monitor W B (S n) message st
                            = (Ret (Some Stopped), st')
                            ∧ task_running st' = false)
  ∧ (∀ message st, task_running st = false →
                   truthy (config_dict st !! "AUTO_TBL_CHANNEL") = true →
                   (_start_monitor message st).1 = Ret Started).
Proof.
  split; [|split; [|split; [|split]]].
  - intros n st HW Hst.
    pose proof (ro_monitor_loop W B HW n chat st Hst) as Hro.
    unfold _tamilblasters_monitor.
    destruct (monitor_loop W B n chat st) as [[[]|e] st']; [eauto|by destruct Hro].
  - intros n st. unfold _tamilblasters_monitor.
    destruct (monitor_loop W B n chat st) as [[[]|e] [cfg task ll topics cc cache clk tr]];
      [done|].
    unfold monitor_finally, finish_task, task_running.
    destruct (is_CancelledError e); mrun;
      destruct (lock_wait_cancelled W clk) eqn:Hlock; mrun; rewrite ?Hlock;
      (split; [by destruct task|]); exists e; by repeat split.
  - intros n st t Ht Hc. rewrite (cancelled_monitor_exits W B n chat st t Ht Hc).
    eexists. split; [done|]. split.
    + unfold task_running, finish_task.
      destruct (lock_wait_cancelled W (clock st)); simpl; [by rewrite Ht|done].
    + apply events_since_app.
      by destruct (lock_wait_cancelled W (clock st)).
  - intros n message st Hrun. rewrite stop_monitor_spec, Hrun.
    eexists. split; [done|]. unfold task_running, finish_task.
    destruct (first_step_pending W (clock st)); simpl.
    { by destruct (_monitor_task st). }
    destruct (lock_wait_cancelled W (clock st)); simpl; [|done].
    by destruct (_monitor_task st).
  - intros message st Hrun Hcfg. by rewrite start_monitor_spec, Hcfg, Hrun.
Qed.

Lemma monitor_contains_expected_errors_witness :
  contained Example.refusing
  ∧ no_cancel_pending Example.started
  ∧ ∃ st', _tamilblasters_monitor Example.refusing Example.builtins 3
             Example.upload_chat Example.started = (Ret tt, st').
Proof.
  split; [exact refusing_contained|]. split; [reflexivity|].
  apply monitor_contains_expected_errors; [exact refusing_contained|reflexivity].
Defined.

(** ** The chat resolver cache *)

(** C7: the cache is one optional entry.  A request for the cached key
    returns the cached namespace and does nothing else (no [get_chat]); a
    request that misses calls [get_chat] and, when that returns, stores the
    new entry in place of the old one and returns its namespace; when
    [get_chat] raises, the cache is left as it was, and the trigger ends
    without calling [_mirror_leech]; and every start that starts a run
    empties the cache. *)
Theorem command_chat_cache_is_single_entry_memo (W : World) :
  (∀ chat_ref stub st,
     _command_chat_cache st = Some (chat_ref, stub) →
     _resolve_command_chat W chat_ref st = (Ret (Some stub), st))
  ∧ (∀ chat_ref chat st,
       cache_hit (_command_chat_cache st) chat_ref = None →
       no_cancel_pending st →
       get_chat W (clock st) chat_ref = Ret chat →
       ∃ stub st',
         _resolve_command_chat W chat_ref st = (Ret (Some stub), st')
         ∧ stub_id stub = chat_id chat
         ∧ _command_chat_cache st' = Some (chat_ref, stub)
         ∧ trace st' = EvGetChat chat_ref (Ret chat) :: trace st)
  ∧ (∀ chat_ref e st,
       cache_hit (_command_chat_cache st) chat_ref = None →
       no_cancel_pending st →
       get_chat W (clock st) chat_ref = Raise e →
       (∃ st',
          _resolve_command_chat W chat_ref st
          = (if is_RPCError e then Ret None else Raise e, st')
          ∧ _command_chat_cache st' = _command_chat_cache st)
       ∧ ∀ link title,
           _command_chat_cache (resolve_and_queue W chat_ref link title st).2
           = _command_chat_cache st
           ∧ ∀ m r, EvMirrorLeech m r
                    ∉ events_since st (resolve_and_queue W chat_ref link title st).2)
  ∧ (∀ message st st',
       _start_monitor message st = (Ret Started, st') →
       _command_chat_cache st' = None).
Proof.
  split; [|split; [|split]].
  - intros chat_ref stub st Hc.
    unfold _resolve_command_chat, mbind, M_bind, gets. rewrite Hc. simpl.
    by rewrite decide_True.
  - intros chat_ref chat st Hmiss Hst Hget.
    destruct st as [cfg task ll topics cc cache clk tr]; simpl in *.
    unfold _resolve_command_chat, bot_get_chat, deliver_cancel. mrun.
    rewrite Hmiss. unfold no_cancel_pending in Hst; simpl in Hst.
    destruct task as [[tchat tdone tcancel]|]; simpl in *; subst;
      mrun; rewrite Hget; mrun; by eexists _, _.
  - intros chat_ref e st Hmiss Hst Hget.
    destruct st as [cfg task ll topics cc cache clk tr]; simpl in *.
    unfold no_cancel_pending in Hst; simpl in Hst.
    split.
    + unfold _resolve_command_chat, bot_get_chat, deliver_cancel. mrun.
      rewrite Hmiss.
      destruct task as [[tchat tdone tcancel]|]; simpl in *; subst;
        mrun; rewrite Hget; mrun; destruct e; mrun; by eexists.
    + intros link title.
      unfold resolve_and_queue, _resolve_command_chat, bot_get_chat,
        deliver_cancel. mrun.
      rewrite Hmiss.
      destruct task as [[tchat tdone tcancel]|]; simpl in *; subst;
        mrun; rewrite Hget; mrun; destruct e; mrun;
        (split; [done|]);
        first [ rewrite (events_since_app _ _ [_]) by done
              | rewrite (events_since_app _ _ [_; _]) by done ];
        intros m r Hin; set_solver.
  - intros message st st' Hs. by apply started_state in Hs as (_ & _ & _ & ?).
Qed.

Lemma command_chat_cache_witness :
  _command_chat_cache Example.delivered_once
  = Some (ChatId 7, mkStub 7 (Some PRIVATE))
  ∧ _resolve_command_chat Example.calm (ChatId 7) Example.delivered_once
    = (Ret (Some (mkStub 7 (Some PRIVATE))), Example.delivered_once).
Proof.
  assert (Hc : _command_chat_cache Example.delivered_once
               = Some (ChatId 7, mkStub 7 (Some PRIVATE))) by (by vm_compute).
  split; [exact Hc|].
  by apply command_chat_cache_is_single_entry_memo.
Defined.

(** ** The recorded command chat *)

(** C10: a start that starts a run records a command chat that is not
    [None]: the configured [AUTO_TBL_COMMAND_CHAT] or else the chat id of
    the operator's message.  The monitor never changes it, and from any
    state that holds it (with the configuration as it was at the start, or
    with any configuration if the operator's chat id is not 0) no stretch
    of the run logs "not configured": every entry into [_trigger_qbleech]
    goes on to resolve a chat. *)
Theorem command_chat_recorded_for_the_run (message : Message) (st st1 : State) :
  _start_monitor message st = (Ret Started, st1) →
  (∃ chat_ref, _monitor_command_chat st1 = Some chat_ref)
  ∧ _monitor_command_chat st1
    = py_or (config_dict st !! "AUTO_TBL_COMMAND_CHAT")
            (Some (ChatId (message_chat_id message)))
  ∧ ∀ W B n chat st',
      _monitor_command_chat st' = _monitor_command_chat st1 →
      message_chat_id message ≠ 0%Z ∨ config_dict st' = config_dict st1 →
      _monitor_command_chat (_tamilblasters_monitor W B n chat st').2
      = _monitor_command_chat st1
      ∧ (∀ link, EvLog (LogNotConfigured link)
                 ∉ events_since st' (_tamilblasters_monitor W B n chat st').2)
      ∧ ∀ link title, ∃ chat_ref,
          _trigger_qbleech W link title st'
          = resolve_and_queue W chat_ref link title
              (set_trace (EvTrigger link title :: trace st') st').
Proof.
  intros (Hchan & Hcfg & Hcc & _)%started_state.
  split.
  { rewrite Hcc. unfold py_or.
    destruct (truthy (config_dict st !! "AUTO_TBL_COMMAND_CHAT")) eqn:Hcmd; [|eauto].
    by apply truthy_is_Some. }
  split; [done|].
  intros W B n chat st' Hcc' Hor.
  assert (Hconf : configured st').
  { unfold configured. destruct Hor as [Hid|Hsame].
    - apply truthy_py_or_l, truthy_py_or_l. rewrite Hcc', Hcc.
      apply truthy_py_or_r. simpl. by destruct (Z.eqb_spec (message_chat_id message) 0).
    - apply truthy_py_or_r. by rewrite Hsame, Hcfg. }
  destruct (monitor_evolves W B n chat st') as (_ & K & _ & _ & ev & Hn & _ & _ & Hnc).
  split; [congruence|]. split.
  - rewrite (events_since_app _ _ _ Hn). by apply Hnc.
  - intros link title. rewrite trigger_unfold. cbv zeta.
    unfold configured in Hconf.
    destruct (py_or (py_or _ _) _) as [chat_ref|] eqn:Href; [|done].
    rewrite Hconf. simpl. by exists chat_ref.
Qed.

Lemma command_chat_recorded_witness :
  _start_monitor Example.operator (initial_state Example.config)
  = (Ret Started, Example.started)
  ∧ (∃ chat_ref, _monitor_command_chat Example.started = Some chat_ref)
  ∧ ∀ link, EvLog (LogNotConfigured link)
            ∉ events_since Example.started
                (_tamilblasters_monitor Example.calm Example.builtins 2
                   Example.upload_chat Example.started).2.
Proof.
  assert (Hs : _start_monitor Example.operator (initial_state Example.config)
               = (Ret Started, Example.started)) by reflexivity.
  split; [exact Hs|].
  destruct (command_chat_recorded_for_the_run _ _ _ Hs) as (Hsome & _ & Hrun).
  split; [exact Hsome|].
  apply (Hrun Example.calm Example.builtins 2 Example.upload_chat Example.started
           eq_refl (or_intror eq_refl)).
Defined.

(** * Further properties *)

(** ** What the monitor emits *)

Lemma trace_step_preorder allowed : PreOrder (trace_step allowed).
Proof.
  split.
  - intros st. by exists [].
  - intros s1 s2 s3 (n1 & Hn1 & Ha1) (n2 & Hn2 & Ha2).
    exists (n2 ++ n1). rewrite Hn2, Hn1, app_assoc. split; [done|].
    by apply Forall_app.
Qed.
Global Existing Instance trace_step_preorder.

Lemma trace_step_mono (P Q : Event → Prop) st st' :
  (∀ e, P e → Q e) → trace_step P st st' → trace_step Q st st'.
Proof.
  intros HPQ (n & Hn & Ha). exists n. split; [done|].
  eapply Forall_impl; eauto.
Qed.

Lemma frame_step_trace_step P st st' : frame_step P st st' → trace_step P st st'.
Proof. by intros (_ & _ & _ & _ & H). Qed.

Lemma trace_step_quiet P st st' : trace st' = trace st → trace_step P st st'.
Proof. intros H. exists []. by rewrite H. Qed.

Lemma trace_step_events P st st' :
  trace_step P st st' →
  trace st' = events_since st st' ++ trace st ∧ Forall P (events_since st st').
Proof. intros (n & Hn & Ha). by rewrite (events_since_app _ _ _ Hn). Qed.

Section Emits.
Context (W : World) (B : Builtins).
Context (P : Event → Prop).

Local Abbreviation T := (trace_step P).

Lemma emits_of_frame {A} (m : M A) : steps (frame_step P) m → steps T m.
Proof. apply steps_mono. apply frame_step_trace_step. Qed.

Lemma emits_emit e : P e → steps T (emit e).
Proof. intros He. by apply emits_of_frame, frame_emit. Qed.

Lemma emits_download url :
  (∀ r, P (EvDownload url r)) → P (EvLog (LogDownloadFailed url)) →
  steps T (_download_torrent W url).
Proof.
  intros HP1 HP2. apply emits_of_frame, frame_to_thread.
  unfold _download_torrent_sync.
  s_bind; [apply frame_tick|]. intros t.
  s_bind; [by apply frame_emit|]. intros _.
  destruct (scraper_get_content W t url); [s_ret|].
  s_bind; [by apply frame_emit|]. intros _. s_ret.
Qed.

Lemma emits_send_document chat payload name cap :
  (∀ r, P (EvSendDocument chat payload name cap r)) →
  steps T (bot_send_document W chat payload name cap).
Proof.
  intros HP. apply emits_of_frame. unfold bot_send_document.
  s_bind; [apply frame_deliver_cancel|]. intros _.
  s_bind; [apply frame_tick|]. intros t.
  s_bind; [by apply frame_emit|]. intros _. s_lift.
Qed.

Lemma default_stub_type_spec chat st :
  ∃ chat' st',
    default_stub_type chat st = (Ret chat', st')
    ∧ stub_type chat' ≠ None
    ∧ stub_id chat' = stub_id chat
    ∧ frame_step P st st'.
Proof.
  unfold default_stub_type. destruct (stub_type chat) eqn:Hty.
  - exists chat, st. split; [done|]. split; [by rewrite Hty|].
    split; [done|reflexivity].
  - eexists _, _. unfold mbind, M_bind, modify, mret, M_ret.
    split; [done|]. split; [done|]. split; [done|]. apply frame_set_cache.
Qed.

Lemma emits_queue_leech chat link title :
  (∀ m r, leech_message_for W link title m → P (EvMirrorLeech m r)) →
  (∀ s, P (EvLog (LogQueued s))) → P (EvLog (LogLeechFailed link)) →
  steps T (queue_leech W chat link title).
Proof.
  intros HP1 HP2 HP3 st. unfold queue_leech. rewrite bind_run.
  destruct (default_stub_type_spec chat st) as (chat' & st' & -> & Hty & _ & Hfr).
  etrans; [apply frame_step_trace_step, Hfr|].
  revert st' Hfr. intros st' _.
  assert (Hk : steps T
    (now ← gets clock;
     try_except
       (call_mirror_leech W
          (mkAutoMessage chat' (time_ms W now)
             ("/" +:+ QbLeechCommand W +:+ " " +:+ link) (OWNER_ID W)
             (if String.eqb title "" then "TamilAuto" else title));;
        log (LogQueued (if String.eqb title "" then link else title)))
       is_Exception (λ _, log (LogLeechFailed link)))).
  { s_bind; [s_gets|]. intros now. s_try.
    - s_bind; [|intros _; by apply emits_emit].
      apply emits_of_frame, frame_mirror_leech. intros r. by apply HP1.
    - intros _. by apply emits_emit. }
  apply Hk.
Qed.

Lemma emits_trigger link title :
  P (EvTrigger link title) → P (EvLog (LogNotConfigured link)) →
  (∀ chat_ref r, P (EvGetChat chat_ref r)) →
  (∀ chat_ref, P (EvLog (LogResolveFailed chat_ref))) →
  (∀ m r, leech_message_for W link title m → P (EvMirrorLeech m r)) →
  (∀ s, P (EvLog (LogQueued s))) → P (EvLog (LogLeechFailed link)) →
  steps T (_trigger_qbleech W link title).
Proof.
  intros H1 H2 H3 H4 H5 H6 H7. unfold _trigger_qbleech.
  s_bind; [by apply emits_emit|]. intros _.
  s_bind; [s_gets|]. intros override.
  s_bind; [s_gets|]. intros cfg.
  destruct (py_or (py_or _ _) _) as [ref|]; [|by apply emits_emit].
  destruct (negb _); [by apply emits_emit|].
  unfold resolve_and_queue. s_bind.
  - apply emits_of_frame, frame_resolve; auto.
  - intros [chat|]; [by apply emits_queue_leech|s_ret].
Qed.

Lemma steps_for_fold {A S} (R : State → State → Prop) `{!PreOrder R}
    (l : list A) (body : A → S → M S) :
  (∀ x acc, steps R (body x acc)) → ∀ acc, steps R (for_fold l body acc).
Proof.
  intros Hb. induction l as [|x l IH]; intros acc; simpl.
  - s_ret.
  - s_bind; [apply Hb|]. intros acc'. apply IH.
Qed.

(** The crawl leaves the module's globals alone. *)
Lemma frame_crawl_sync :
  (∀ url, P (EvHttpGet url)) → (∀ r, P (EvLog r)) →
  steps (frame_step P) (_crawl_tbl_sync W B).
Proof.
  intros HP1 HP2.
  assert (Hget : ∀ url, steps (frame_step P) (http_get W url)).
  { intros url. unfold http_get.
    s_bind; [apply frame_tick|]. intros t.
    s_bind; [by apply frame_emit|]. intros _. s_ret. }
  unfold _crawl_tbl_sync. s_bind; [apply Hget|].
  intros [soup|].
  - apply steps_for_fold; [apply _|]. intros rel_url acc.
    unfold crawl_topic. s_bind; [apply Hget|].
    intros [post_soup|].
    + destruct (omap _ _); s_ret.
    + s_bind; [by apply frame_emit|]. intros _. s_ret.
  - s_bind; [by apply frame_emit|]. intros _. s_ret.
Qed.

End Emits.

Section MonitorEvents.
Context (W : World) (B : Builtins).

Lemma process_file_events chat file_ :
  steps (trace_step (file_event W chat file_)) (process_file W chat file_).
Proof.
  unfold process_file.
  s_bind; [by apply emits_download|]. intros [payload|]; [|s_ret].
  s_bind.
  - s_try.
    + s_bind; [by apply emits_send_document|]. intros _.
      s_bind; [s_modify; intros st; by apply trace_step_quiet|]. intros _.
      s_bind; [by apply emits_emit|]. intros _. s_ret.
    + intros _. s_bind; [by apply emits_emit|]. intros _. s_ret.
  - intros [|]; [|s_ret]. by apply emits_trigger.
Qed.

Lemma file_event_monitor_event chat file_ e :
  file_event W chat file_ e → monitor_event W chat e.
Proof. destruct e as [| | | | | | | | | |[]]; simpl; eauto; done. Qed.

Lemma steps_for_each_elem {A} (R : State → State → Prop) `{!PreOrder R}
    (l : list A) (body : A → M unit) :
  (∀ x, x ∈ l → steps R (body x)) → steps R (for_each l body).
Proof.
  induction l as [|x l IH]; intros Hb; simpl; [s_ret|].
  s_bind; [apply Hb; by left|]. intros _. apply IH.
  intros y Hy. apply Hb. by right.
Qed.

(** The events of a topic are events of the pipeline of its new files. *)
Lemma new_files_events chat (files : list File) :
  steps (trace_step (λ e, ∃ file_, file_ ∈ files ∧ file_event W chat file_ e))
    (for_each files (process_file W chat)).
Proof.
  apply steps_for_each_elem; [apply _|]. intros file_ Hin.
  eapply steps_mono; [|apply process_file_events].
  intros st st'. apply trace_step_mono. eauto.
Qed.

Lemma process_topic_events chat torrent :
  steps (trace_step (λ e, ∃ file_, file_event W chat file_ e))
    (process_topic W chat torrent).
Proof.
  unfold process_topic.
  s_bind; [s_gets|]. intros seen_links.
  s_bind; [s_gets|]. intros seen_topics.
  destruct (_ && _); [s_ret|].
  s_bind.
  - eapply steps_mono; [|apply new_files_events].
    intros st st'. apply trace_step_mono. intros e (f & _ & Hf). eauto.
  - intros _. s_modify. intros st. by apply trace_step_quiet.
Qed.

Lemma poll_cycle_events chat :
  steps (trace_step (monitor_event W chat)) (poll_cycle W B chat).
Proof.
  unfold poll_cycle. s_bind.
  - s_try.
    + apply emits_of_frame, frame_to_thread, frame_crawl_sync; done.
    + intros _. s_bind; [by apply emits_emit|]. intros _. s_ret.
  - intros torrents. s_bind.
    + s_for_each. intros torrent.
      eapply steps_mono; [|apply process_topic_events].
      intros st st'. apply trace_step_mono.
      intros e [f Hf]. by eapply file_event_monitor_event.
    + intros _. by apply emits_of_frame, frame_sleep.
Qed.

Lemma monitor_loop_events n chat :
  steps (trace_step (monitor_event W chat)) (monitor_loop W B n chat).
Proof.
  induction n as [|n IH]; simpl; [s_ret|].
  s_bind; [apply poll_cycle_events|]. intros _. exact IH.
Qed.

Lemma monitor_events n chat :
  steps (trace_step (monitor_event W chat)) (_tamilblasters_monitor W B n chat).
Proof.
  intros st. unfold _tamilblasters_monitor.
  pose proof (monitor_loop_events n chat st) as Hloop.
  destruct (monitor_loop W B n chat st) as [[[]|e] st1]; simpl in *; [done|].
  etrans; [exact Hloop|]. apply frame_step_trace_step.
  by apply (frame_monitor_exit W (monitor_event W chat) e).
Qed.

End MonitorEvents.

Section CrawledEvents.
Context (W : World) (B : Builtins).

Local Abbreviation C chat := (trace_step (crawled_file_event W B chat)).

(** What the poll cycle iterates over was returned by a crawl. *)
Lemma crawl_result st :
  match try_except (_crawl_tbl W B) is_Exception
          (λ _, log LogCrawlError;; mret []) st with
  | (Ret torrents, _) =>
      ∀ topic file_, topic ∈ torrents → file_ ∈ links topic → crawled_file W B file_
  | (Raise _, _) => True
  end.
Proof.
  assert (Hsync : ∀ s,
            match _crawl_tbl_sync W B s with
            | (Ret torrents, _) =>
                ∀ topic file_, topic ∈ torrents → file_ ∈ links topic →
                               crawled_file W B file_
            | (Raise _, _) => True
            end).
  { intros s. destruct (_crawl_tbl_sync W B s) as [[torrents|e] s'] eqn:Hrun; [|done].
    intros topic file_ Ht Hf. exists s, torrents, topic. by rewrite Hrun. }
  unfold _crawl_tbl, asyncio_to_thread, try_except.
  rewrite bind_run. destruct (deliver_cancel st) as [[[]|e] s0].
  2:{ destruct (is_Exception e); [|done]. rewrite bind_run. simpl.
      intros topic file_ Ht. by apply elem_of_nil in Ht. }
  rewrite bind_run. unfold tick at 1.
  destruct (crawl_fault W (clock s0)) as [e|].
  { unfold raise. destruct (is_Exception e); [|done]. rewrite bind_run. simpl.
    intros topic file_ Ht. by apply elem_of_nil in Ht. }
  specialize (Hsync (set_clock (S (clock s0)) s0)).
  destruct (_crawl_tbl_sync W B _) as [[torrents|e] s1]; [done|].
  destruct (is_Exception e); [|done]. rewrite bind_run. simpl.
  intros topic file_ Ht. by apply elem_of_nil in Ht.
Qed.

Lemma process_topic_crawled chat torrent :
  (∀ file_, file_ ∈ links torrent → crawled_file W B file_) →
  steps (C chat) (process_topic W chat torrent).
Proof.
  intros Hcrawled. unfold process_topic.
  s_bind; [s_gets|]. intros seen_links.
  s_bind; [s_gets|]. intros seen_topics.
  destruct (_ && _); [s_ret|].
  s_bind.
  - eapply steps_mono; [|apply new_files_events].
    intros st st'. apply trace_step_mono.
    intros e (f & [_ Hin]%new_files_of_elem & Hf).
    destruct e as [| | | | | | | | | |[]]; simpl in *; eauto.
  - intros _. s_modify. intros st. by apply trace_step_quiet.
Qed.

Lemma poll_cycle_crawled chat : steps (C chat) (poll_cycle W B chat).
Proof.
  intros st. unfold poll_cycle. rewrite bind_run.
  assert (Hcrawl : C chat st
            (try_except (_crawl_tbl W B) is_Exception
               (λ _, log LogCrawlError;; mret []) st).2).
  { revert st. apply steps_try_except; [apply _| |].
    - apply emits_of_frame, frame_to_thread, frame_crawl_sync; done.
    - intros _. s_bind; [by apply emits_emit|]. intros _. s_ret. }
  pose proof (crawl_result st) as Hres.
  destruct (try_except _ _ _ st) as [[torrents|e] s1]; simpl in *; [|done].
  assert (Hrest : steps (C chat)
            (for_each torrents (process_topic W chat);;
             asyncio_sleep W _POLL_DELAY)).
  { s_bind.
    - apply steps_for_each_elem; [apply _|]. intros torrent Hin.
      apply process_topic_crawled. intros file_. by apply Hres.
    - intros _. by apply emits_of_frame, frame_sleep. }
  etrans; [exact Hcrawl|]. apply Hrest.
Qed.

Lemma monitor_loop_crawled n chat : steps (C chat) (monitor_loop W B n chat).
Proof.
  induction n as [|n IH]; simpl; [s_ret|].
  s_bind; [apply poll_cycle_crawled|]. intros _. exact IH.
Qed.

Lemma monitor_crawled n chat : steps (C chat) (_tamilblasters_monitor W B n chat).
Proof.
  intros st. unfold _tamilblasters_monitor.
  pose proof (monitor_loop_crawled n chat st) as Hloop.
  destruct (monitor_loop W B n chat st) as [[[]|e] st1]; simpl in *; [done|].
  etrans; [exact Hloop|]. apply frame_step_trace_step.
  by apply (frame_monitor_exit W (crawled_file_event W B chat) e).
Qed.

End CrawledEvents.

Lemma sanitize_filename_safe name :
  PyStr.all safe_char (_sanitize_filename name) = true
  ∧ ∃ stem, stem ≠ "" ∧ _sanitize_filename name = stem +:+ ".torrent".
Proof.
  unfold _sanitize_filename. destruct (String.eqb name ""); [split; [done|]|].
  { by exists "tbl_torrent". }
  destruct (String.eqb (PyStr.strip "_" (re_sub_unsafe false name)) "") eqn:E.
  - split; [done|]. by exists "tbl_torrent".
  - split.
    + apply all_app; [apply all_strip_re_sub|done].
    + eexists. split; [|done]. by apply String.eqb_neq.
Qed.

(** X1 (uploads): every document the monitor sends, in any stretch of its
    run, goes to the chat the coroutine was created with, and is the
    document of a file of a topic that a crawl returned: it is sent under
    that file's sanitized title (a non-empty stem of characters of
    [[0-9A-Za-z._-]] and the suffix [".torrent"]) and with that file's
    caption. *)
Theorem monitor_uploads_to_its_destination
    (W : World) (B : Builtins) (n : nat) (chat : ChatRef) (st : State) :
  Forall (λ e, ∀ c payload name caption r,
            e = EvSendDocument c payload name caption r →
            c = chat
            ∧ (∃ file_, crawled_file W B file_
                        ∧ name = _sanitize_filename (file_title file_)
                        ∧ caption = caption_of file_)
            ∧ PyStr.all safe_char name = true
            ∧ ∃ stem, stem ≠ "" ∧ name = stem +:+ ".torrent")
    (events_since st (_tamilblasters_monitor W B n chat st).2).
Proof.
  destruct (trace_step_events _ _ _ (monitor_crawled W B n chat st)) as [_ Hev].
  eapply Forall_impl; [exact Hev|].
  intros e He c payload name caption r ->.
  destruct He as (file_ & Hcrawled & -> & -> & ->).
  split; [done|]. split; [eauto|]. apply sanitize_filename_safe.
Qed.

(** X2 (no lifecycle action): the monitor's coroutine never replies to the
    operator, never creates a task and never cancels one, and every sleep
    it takes is of [_POLL_DELAY] = 900 seconds. *)
Theorem monitor_only_polls
    (W : World) (B : Builtins) (n : nat) (chat : ChatRef) (st : State) :
  Forall (λ e, match e with
               | EvSendMessage _ | EvCreateTask _ | EvCancel => False
               | EvSleep seconds => seconds = 900
               | _ => True
               end)
    (events_since st (_tamilblasters_monitor W B n chat st).2).
Proof.
  destruct (trace_step_events _ _ _ (monitor_events W B n chat st)) as [_ Hev].
  eapply Forall_impl; [exact Hev|].
  by intros [].
Qed.

(** X3 (command message): every message handed to [_mirror_leech] is made
    for a file of a topic that a crawl returned: its text is the
    qBittorrent leech command followed by that file's link, it comes from
    [OWNER_ID], its title is that file's title, or "TamilAuto" when the
    file's title is empty (so it is never empty), and it names a chat
    whose type is set. *)
Theorem leech_messages_are_commands
    (W : World) (B : Builtins) (n : nat) (chat : ChatRef) (st : State) :
  Forall (λ e, ∀ m r,
            e = EvMirrorLeech m r →
            ∃ file_,
              crawled_file W B file_
              ∧ msg_text m = "/" +:+ QbLeechCommand W +:+ " " +:+ file_link file_
              ∧ msg_from_user m = OWNER_ID W
              ∧ msg_title m
                = (if String.eqb (file_title file_) "" then "TamilAuto"
                   else file_title file_)
              ∧ msg_title m ≠ ""
              ∧ stub_type (msg_chat m) ≠ None)
    (events_since st (_tamilblasters_monitor W B n chat st).2).
Proof.
  destruct (trace_step_events _ _ _ (monitor_crawled W B n chat st)) as [_ Hev].
  eapply Forall_impl; [exact Hev|].
  intros e He m r ->.
  destruct He as (file_ & Hcrawled & Htext & Hfrom & Htitle & Hty).
  exists file_. repeat (split; [done|]). split; [|done].
  rewrite Htitle. destruct (String.eqb (file_title file_) "") eqn:E; [done|].
  by apply String.eqb_neq.
Qed.

(** ** Dedup *)

Lemma dedup_step_preorder : PreOrder dedup_step.
Proof.
  split.
  - intros st. split; [done|]. split; [done|]. exists []. split; [done|].
    intros url r Hin. by apply elem_of_nil in Hin.
  - intros s1 s2 s3 (H1 & H2 & n1 & Hn1 & Hd1) (K1 & K2 & n2 & Hn2 & Hd2).
    split; [set_solver|]. split; [set_solver|].
    exists (n2 ++ n1). rewrite Hn2, Hn1, app_assoc. split; [done|].
    intros url r [Hin|Hin]%elem_of_app.
    + intros Hl. by apply (Hd2 url r Hin), H1.
    + by apply (Hd1 url r).
Qed.
Global Existing Instance dedup_step_preorder.

Lemma frame_step_dedup_step st st' :
  frame_step no_transfer_event st st' → dedup_step st st'.
Proof.
  intros (_ & _ & H3 & H4 & new & Hn & Ha).
  split; [by rewrite H3|]. split; [by rewrite H4|].
  exists new. split; [done|]. intros url r Hin.
  rewrite Forall_forall in Ha. by destruct (Ha _ Hin).
Qed.

Section Dedup.
Context (W : World) (B : Builtins).

Lemma process_topic_dedup chat torrent : steps dedup_step (process_topic W chat torrent).
Proof.
  intros st. unfold process_topic, mbind at 1 2, M_bind, gets.
  destruct (_ && _); [reflexivity|].
  set (files := new_files_of (_monitor_last_links st) torrent).
  rewrite bind_run.
  pose proof (new_files_events W chat files st) as (new & Hn & Ha).
  assert (Hall : ∀ l, steps evolves (for_each l (process_file W chat))).
  { intros l. s_for_each. apply process_file_evolves. }
  destruct (Hall files st) as (_ & _ & Hl & Ht & _).
  destruct (for_each files (process_file W chat) st) as [[[]|e] st1]; simpl in *.
  - split; [done|]. split; [set_solver|]. exists new. split; [done|].
    intros url r Hin. rewrite Forall_forall in Ha.
    destruct (Ha _ Hin) as (f & Hf & Hurl). simpl in Hurl. subst url.
    by apply new_files_of_elem in Hf as [? _].
  - split; [done|]. split; [done|]. exists new. split; [done|].
    intros url r Hin. rewrite Forall_forall in Ha.
    destruct (Ha _ Hin) as (f & Hf & Hurl). simpl in Hurl. subst url.
    by apply new_files_of_elem in Hf as [? _].
Qed.

Lemma poll_cycle_dedup chat : steps dedup_step (poll_cycle W B chat).
Proof.
  unfold poll_cycle. s_bind.
  - s_try.
    + eapply steps_mono; [apply frame_step_dedup_step|].
      apply frame_to_thread, frame_crawl_sync; done.
    + intros _. s_bind; [|intros _; s_ret].
      eapply steps_mono; [apply frame_step_dedup_step|]. by apply frame_emit.
  - intros torrents. s_bind; [s_for_each; apply process_topic_dedup|].
    intros _. eapply steps_mono; [apply frame_step_dedup_step|].
    by apply frame_sleep.
Qed.

Lemma monitor_loop_dedup n chat : steps dedup_step (monitor_loop W B n chat).
Proof.
  induction n as [|n IH]; simpl; [s_ret|].
  s_bind; [apply poll_cycle_dedup|]. intros _. exact IH.
Qed.

Lemma monitor_dedup n chat : steps dedup_step (_tamilblasters_monitor W B n chat).
Proof.
  intros st. unfold _tamilblasters_monitor.
  pose proof (monitor_loop_dedup n chat st) as Hloop.
  destruct (monitor_loop W B n chat st) as [[[]|e] st1]; simpl in *; [done|].
  etrans; [exact Hloop|]. apply frame_step_dedup_step.
  by apply (frame_monitor_exit W no_transfer_event e).
Qed.

End Dedup.

(** X4 (dedup): over any stretch of the monitor's run the two dedup sets
    only grow, and no link that [_monitor_last_links] held when the stretch
    began is downloaded again. *)
Theorem delivered_links_are_not_fetched_again
    (W : World) (B : Builtins) (n : nat) (chat : ChatRef) (st : State) :
  _monitor_last_links st
  ⊆ _monitor_last_links (_tamilblasters_monitor W B n chat st).2
  ∧ _monitor_seen_topics st
    ⊆ _monitor_seen_topics (_tamilblasters_monitor W B n chat st).2
  ∧ ∀ url r,
      EvDownload url r ∈ events_since st (_tamilblasters_monitor W B n chat st).2 →
      url ∉ _monitor_last_links st.
Proof.
  destruct (monitor_dedup W B n chat st) as (Hl & Ht & new & Hn & Hd).
  split; [done|]. split; [done|]. by rewrite (events_since_app _ _ _ Hn).
Qed.

(** ** The crawl *)

Lemma full_url_of_absolute rel_url : PyStr.startswith "http" (full_url_of rel_url) = true.
Proof.
  unfold full_url_of. destruct (PyStr.startswith "http" rel_url) eqn:E; [done|].
  reflexivity.
Qed.

Section CrawlRun.
Context (W : World) (B : Builtins).

Lemma file_of_tag_from_tag tag file_ :
  a_fileext tag = Some "torrent" → file_of_tag B tag = Some file_ →
  file_from_tag B file_.
Proof.
  intros Hext. unfold file_of_tag.
  destruct (a_href tag) as [href|] eqn:Hhref; [|done].
  destruct (String.eqb href "") eqn:E; [done|]. intros [= <-].
  split; [done|]. exists tag, href. apply String.eqb_neq in E. by repeat split.
Qed.

Lemma omap_file_of_tag_from_tag (page : Page) :
  Forall (file_from_tag B) (omap (file_of_tag B) (torrent_tags page)).
Proof.
  apply Forall_forall. intros f (tag & Htag & Hf)%list_elem_of_omap.
  apply list_elem_of_filter in Htag as [Hext _].
  by eapply file_of_tag_from_tag.
Qed.

Lemma topic_of_page_crawled rel_url page topic :
  topic_of_page B rel_url page = Some topic → crawled_topic B topic.
Proof.
  unfold topic_of_page.
  pose proof (omap_file_of_tag_from_tag page) as Hall.
  destruct (omap _ _) as [|first rest]; [done|]. intros [= <-].
  split; [apply full_url_of_absolute|]. split; [|done].
  by exists first, rest.
Qed.

Lemma crawled_crawled_topic t window : Forall (crawled_topic B) (crawled W B t window).
Proof.
  revert t. induction window as [|rel_url window IH]; intros t; simpl; [done|].
  destruct (scraper_get W t (full_url_of rel_url)) as [page|]; simpl; [|apply IH].
  destruct (topic_of_page B rel_url page) eqn:E; [|apply IH].
  constructor; [by eapply topic_of_page_crawled|apply IH].
Qed.

(** The loop over the window, with its accumulator and the clock, is
    the list of independent lookups. *)
Lemma crawl_topics_run window : ∀ acc st,
  ∃ new,
    for_fold window (crawl_topic W B) acc st
    = (Ret (acc ++ crawled W B (clock st) window),
       set_trace (new ++ trace st) (set_clock (clock st + length window) st)).
Proof.
  induction window as [|rel_url window IH]; intros acc st; simpl.
  - exists []. rewrite app_nil_r, Nat.add_0_r. by destruct st.
  - rewrite bind_run. unfold crawl_topic at 1, http_get.
    unfold mbind at 1 2 3, M_bind, tick, emit, modify, mret, M_ret.
    unfold topic_of_page.
    destruct (scraper_get W (clock st) (full_url_of rel_url)) as [page|]; simpl.
    + destruct (omap (file_of_tag B) (torrent_tags page)) as [|first rest]; simpl.
      * edestruct IH as [new ->]. eexists (new ++ [_]).
        destruct st; simpl. unfold set_trace, set_clock; simpl.
        rewrite <- app_assoc. do 3 f_equal. lia.
      * edestruct IH as [new ->]. eexists (new ++ [_]).
        destruct st; simpl. unfold set_trace, set_clock; simpl.
        rewrite <- !app_assoc. simpl. do 3 f_equal. lia.
    + unfold log, emit, modify, mbind, M_bind, mret, M_ret.
      edestruct IH as [new ->]. eexists (new ++ [_; _]).
      destruct st; simpl. unfold set_trace, set_clock; simpl.
      rewrite <- app_assoc. do 3 f_equal. lia.
Qed.

Lemma crawl_tbl_sync_run st :
  ∃ new,
    _crawl_tbl_sync W B st
    = match scraper_get W (clock st) _BASE_URL with
      | Some soup =>
          (Ret (crawled W B (S (clock st)) (topic_window soup)),
           set_trace (new ++ trace st)
             (set_clock (S (clock st) + length (topic_window soup)) st))
      | None =>
          (Ret [],
           set_trace (new ++ trace st) (set_clock (S (clock st)) st))
      end.
Proof.
  unfold _crawl_tbl_sync, http_get.
  unfold mbind at 1 2 3, M_bind, tick, emit, modify, mret, M_ret.
  destruct (scraper_get W (clock st) _BASE_URL) as [soup|].
  - destruct (crawl_topics_run (topic_window soup) []
                (set_trace (EvHttpGet _BASE_URL :: trace (set_clock (S (clock st)) st))
                   (set_clock (S (clock st)) st))) as [new Hrun].
    exists (new ++ [EvHttpGet _BASE_URL]). etrans; [exact Hrun|]. destruct st; simpl.
    unfold set_trace, set_clock; simpl. by rewrite <- app_assoc.
  - exists [EvLog LogHomepageFailed; EvHttpGet _BASE_URL]. by destruct st.
Qed.

End CrawlRun.

(** X5 (one lookup per topic): whenever [_crawl_tbl_sync] returns, its
    result is, topic by topic of the window, the topic of the page fetched
    for it, so that a topic page that cannot be fetched or holds no
    torrent link only leaves its own topic out (and the result is empty
    when the homepage cannot be fetched); it has made one request for the
    homepage and one per topic of the window, at most 16, and has changed
    none of the module's globals. *)
Theorem crawl_is_one_lookup_per_topic
    (W : World) (B : Builtins) (st : State) (topics : list Topic) (st' : State) :
  _crawl_tbl_sync W B st = (Ret topics, st') →
  topics = match scraper_get W (clock st) _BASE_URL with
           | Some soup => crawled W B (S (clock st)) (topic_window soup)
           | None => []
           end
  ∧ clock st' = S (clock st) + match scraper_get W (clock st) _BASE_URL with
                               | Some soup => length (topic_window soup)
                               | None => 0
                               end
  ∧ clock st' ≤ clock st + 16
  ∧ config_dict st' = config_dict st
  ∧ _monitor_task st' = _monitor_task st
  ∧ _monitor_last_links st' = _monitor_last_links st
  ∧ _monitor_seen_topics st' = _monitor_seen_topics st
  ∧ _monitor_command_chat st' = _monitor_command_chat st
  ∧ _command_chat_cache st' = _command_chat_cache st.
Proof.
  destruct (crawl_tbl_sync_run W B st) as [new ->].
  destruct (scraper_get W (clock st) _BASE_URL) as [soup|]; intros [= <- <-]; simpl.
  - pose proof (topic_window_spec soup) as (_ & _ & Hlen).
    unfold _MAX_TOPICS in Hlen. repeat split; try done. lia.
  - repeat split; try done; lia.
Qed.

Lemma crawl_is_one_lookup_per_topic_witness :
  (_crawl_tbl_sync Example.calm Example.builtins Example.started).1
  = Ret [Example.topic1;
         mkTopic "https://www.1tamilmv.land//forums/topic/2" "Movie 2" "Unknown"
           [mkFile "torrent" "Movie 2" "L2" "Unknown"]]
  ∧ [Example.topic1;
     mkTopic "https://www.1tamilmv.land//forums/topic/2" "Movie 2" "Unknown"
       [mkFile "torrent" "Movie 2" "L2" "Unknown"]]
    = crawled Example.calm Example.builtins (S (clock Example.started))
        (topic_window Example.homepage).
Proof.
  split; [by vm_compute|].
  exact (proj1 (crawl_is_one_lookup_per_topic Example.calm Example.builtins
                  Example.started _
                  (_crawl_tbl_sync Example.calm Example.builtins Example.started).2
                  ltac:(by vm_compute))).
Defined.

(** X6 (shape of a crawled topic): every topic [_crawl_tbl_sync] returns
    has an absolute URL and at least one file, carries the title and the
    size of its first file, and each of its files has the type "torrent"
    and was made from a torrent tag whose [href] is not empty. *)
Theorem crawled_topics_are_well_formed (W : World) (B : Builtins) (st : State) :
  match _crawl_tbl_sync W B st with
  | (Ret topics, _) => Forall (crawled_topic B) topics
  | (Raise _, _) => False
  end.
Proof.
  destruct (crawl_tbl_sync_run W B st) as [new ->].
  destruct (scraper_get W (clock st) _BASE_URL) as [soup|]; [|done].
  apply crawled_crawled_topic.
Qed.

(** X7 (source outage): with no cancellation pending, a poll cycle whose
    crawl raises an [Exception], or whose homepage cannot be fetched, logs
    it, handles no topic (nothing is downloaded or sent, the globals stay)
    and goes to its sleep. *)
Theorem source_outage_skips_to_the_sleep
    (W : World) (B : Builtins) (chat : ChatRef) (st : State) :
  no_cancel_pending st →
  (∀ e, crawl_fault W (clock st) = Some e → is_Exception e = true →
        poll_cycle W B chat st
        = asyncio_sleep W _POLL_DELAY
            (set_trace (EvLog LogCrawlError :: trace st)
               (set_clock (S (clock st)) st)))
  ∧ (crawl_fault W (clock st) = None →
     scraper_get W (S (clock st)) _BASE_URL = None →
     poll_cycle W B chat st
     = asyncio_sleep W _POLL_DELAY
         (set_trace (EvLog LogHomepageFailed :: EvHttpGet _BASE_URL :: trace st)
            (set_clock (S (S (clock st))) st))).
Proof.
  intros Hst.
  assert (Hdc : deliver_cancel st = (Ret tt, st)).
  { unfold deliver_cancel, no_cancel_pending in *.
    destruct (_monitor_task st) as [t|]; [|done]. by rewrite Hst. }
  split.
  - intros e Hfault He.
    unfold poll_cycle, _crawl_tbl, asyncio_to_thread.
    unfold mbind at 1, M_bind, try_except. unfold mbind at 1, M_bind.
    rewrite Hdc. unfold mbind at 1, M_bind, tick. rewrite Hfault.
    unfold raise. rewrite He. by destruct st.
  - intros Hfault Hhome.
    unfold poll_cycle, _crawl_tbl, asyncio_to_thread.
    unfold mbind at 1, M_bind, try_except. unfold mbind at 1, M_bind.
    rewrite Hdc. unfold mbind at 1, M_bind, tick. rewrite Hfault.
    unfold _crawl_tbl_sync, http_get.
    unfold mbind at 1 2 3, M_bind, tick, emit, modify, mret, M_ret.
    simpl. rewrite Hhome. by destruct st.
Qed.

Lemma source_outage_witness :
  no_cancel_pending Example.started
  ∧ poll_cycle Example.refusing Example.builtins Example.upload_chat Example.started
    = asyncio_sleep Example.refusing _POLL_DELAY
        (set_trace (EvLog LogCrawlError :: trace Example.started)
           (set_clock (S (clock Example.started)) Example.started)).
Proof.
  split; [reflexivity|].
  by apply (proj1 (source_outage_skips_to_the_sleep Example.refusing
                     Example.builtins Example.upload_chat Example.started eq_refl)
              OtherException).
Defined.

(** ** The trigger, the cache, start and stop *)

(** X8 (best effort): whatever [_trigger_qbleech] does, returning or
    raising, it leaves the two dedup sets, the configuration and the
    recorded command chat as they were, so that it can neither undo a
    delivery nor queue the file again; and when no chat reference is
    configured it returns normally after logging that, with no call to
    Telegram or to [_mirror_leech]. *)
Theorem trigger_is_best_effort (W : World) (link title : string) (st : State) :
  _monitor_last_links (_trigger_qbleech W link title st).2 = _monitor_last_links st
  ∧ _monitor_seen_topics (_trigger_qbleech W link title st).2 = _monitor_seen_topics st
  ∧ config_dict (_trigger_qbleech W link title st).2 = config_dict st
  ∧ _monitor_command_chat (_trigger_qbleech W link title st).2
    = _monitor_command_chat st
  ∧ (¬ configured st →
     _trigger_qbleech W link title st
     = (Ret tt,
        set_trace (EvLog (LogNotConfigured link) :: EvTrigger link title :: trace st)
          st)).
Proof.
  destruct (trigger_frame W link title st) as (H1 & H2 & H3 & H4 & _).
  repeat split; try done.
  intros Hno. rewrite trigger_unfold. cbv zeta. unfold configured in Hno.
  destruct (py_or (py_or _ _) _) as [ref|] eqn:Href.
  - destruct (truthy (Some ref)) eqn:Htr; [done|]. simpl. by destruct st.
  - by destruct st.
Qed.

(** X9 (memo round trip): whenever [_resolve_command_chat] returns a
    namespace for a reference, the cache then holds exactly that reference
    with that namespace, and resolving the same reference again returns
    the same namespace and changes nothing (no second [get_chat]). *)
Theorem resolved_chat_is_cached
    (W : World) (chat_ref : ChatRef) (stub : ChatStub) (st st' : State) :
  _resolve_command_chat W chat_ref st = (Ret (Some stub), st') →
  _command_chat_cache st' = Some (chat_ref, stub)
  ∧ _resolve_command_chat W chat_ref st' = (Ret (Some stub), st').
Proof.
  intros Hres.
  assert (Hc : _command_chat_cache st' = Some (chat_ref, stub)).
  { revert Hres. destruct st as [cfg task ll topics cc cache clk tr].
    unfold _resolve_command_chat, bot_get_chat, deliver_cancel. mrun.
    destruct (cache_hit cache chat_ref) as [hit|] eqn:Hhit.
    - intros [= -> <-]. simpl. unfold cache_hit in Hhit.
      destruct cache as [[key s]|]; [|done].
      destruct (decide (key = chat_ref)); [|done]. by simplify_eq.
    - destruct task as [[tchat tdone [|]]|]; mrun; try done;
        (destruct (get_chat W clk chat_ref) as [chat|[]]; mrun; try done;
         by intros [= <- <-]). }
  split; [done|].
  unfold _resolve_command_chat, mbind, M_bind, gets. rewrite Hc. simpl.
  by rewrite decide_True.
Qed.

Lemma resolved_chat_is_cached_witness :
  _command_chat_cache
    (_resolve_command_chat Example.calm (ChatId 7) Example.started).2
  = Some (ChatId 7, mkStub 7 (Some PRIVATE))
  ∧ _resolve_command_chat Example.calm (ChatId 7)
      (_resolve_command_chat Example.calm (ChatId 7) Example.started).2
    = (Ret (Some (mkStub 7 (Some PRIVATE))),
       (_resolve_command_chat Example.calm (ChatId 7) Example.started).2).
Proof.
  apply (resolved_chat_is_cached Example.calm (ChatId 7) _ Example.started).
  reflexivity.
Defined.

Section Stop.
Context (W : World) (B : Builtins).

Lemma stop_not_running n message st :
  task_running st = false →
  _stop_monitor W B n message st
  = (Ret (Some NotRunning),
     set_trace (EvSendMessage "TamilBlasters auto-leech is not running."
                :: trace st) st).
Proof.
  intros Hrun. unfold _stop_monitor. unfold mbind at 1, M_bind, gets.
  by rewrite Hrun.
Qed.

End Stop.

(** X10 (stop): a stop request leaves nothing running, keeps the cache, the
    recorded command chat and the configuration (only a start resets
    them), and a second stop request finds nothing running and only
    replies. *)
Theorem stop_is_idempotent
    (W : World) (B : Builtins) (n m : nat) (message message' : Message) (st : State) :
  task_running (_stop_monitor W B (S n) message st).2 = false
  ∧ _command_chat_cache (_stop_monitor W B (S n) message st).2
    = _command_chat_cache st
  ∧ _monitor_command_chat (_stop_monitor W B (S n) message st).2
    = _monitor_command_chat st
  ∧ config_dict (_stop_monitor W B (S n) message st).2 = config_dict st
  ∧ _stop_monitor W B m message' (_stop_monitor W B (S n) message st).2
    = (Ret (Some NotRunning),
       set_trace (EvSendMessage "TamilBlasters auto-leech is not running."
                  :: trace (_stop_monitor W B (S n) message st).2)
         (_stop_monitor W B (S n) message st).2).
Proof.
  assert (Hst : task_running (_stop_monitor W B (S n) message st).2 = false
                ∧ _command_chat_cache (_stop_monitor W B (S n) message st).2
                  = _command_chat_cache st
                ∧ _monitor_command_chat (_stop_monitor W B (S n) message st).2
                  = _monitor_command_chat st
                ∧ config_dict (_stop_monitor W B (S n) message st).2 = config_dict st).
  { rewrite stop_monitor_spec. unfold task_running, finish_task.
    destruct (_monitor_task st) as [[tchat [|] tcancel]|] eqn:Ht; simpl;
      try (by rewrite Ht).
    destruct (first_step_pending W (clock st)); simpl; [by rewrite Ht|].
    destruct (lock_wait_cancelled W (clock st)); simpl; by rewrite ?Ht. }
  destruct Hst as (Hrun & Hcache & Hcc & Hcfg).
  repeat (split; [done|]). by apply stop_not_running.
Qed.

(** X11 (start): a start request starts a run exactly when
    [AUTO_TBL_CHANNEL] is true and no unfinished task is recorded (a
    recorded task that is done does not stand in the way); the run's task
    is then created for the configured channel and is running; and when
    the channel is missing, [0] or empty, the request only replies. *)
Theorem start_decision (message : Message) (st : State) :
  ((_start_monitor message st).1 = Ret Started
   ↔ truthy (config_dict st !! "AUTO_TBL_CHANNEL") = true ∧ task_running st = false)
  ∧ ((_start_monitor message st).1 = Ret Started →
     task_running (_start_monitor message st).2 = true
     ∧ ∃ upload_chat,
         config_dict st !! "AUTO_TBL_CHANNEL" = Some upload_chat
         ∧ _monitor_task (_start_monitor message st).2
           = Some (mkTask upload_chat false false))
  ∧ (truthy (config_dict st !! "AUTO_TBL_CHANNEL") = false →
     ∃ text,
       _start_monitor message st
       = (Ret Misconfigured, set_trace (EvSendMessage text :: trace st) st)).
Proof.
  rewrite start_monitor_spec.
  destruct (truthy (config_dict st !! "AUTO_TBL_CHANNEL")) eqn:Hcfg.
  - destruct (task_running st) eqn:Hrun; simpl.
    + split; [split; [done|by intros [_ ?]]|]. split; done.
    + split; [done|]. split; [|done]. intros _. split; [done|].
      apply truthy_is_Some in Hcfg as [chat Hchat]. exists chat. by rewrite Hchat.
  - simpl. split; [split; [done|by intros [? _]]|]. split; [done|]. eauto.
Qed.

Lemma tasks_created_app a b : tasks_created (a ++ b) = tasks_created a + tasks_created b.
Proof. unfold tasks_created. by rewrite omap_app, length_app. Qed.

Lemma start_requests_running messages : ∀ st,
  task_running st = true →
  ∃ new,
    start_requests messages st = (Ret tt, set_trace (new ++ trace st) st)
    ∧ tasks_created new = 0.
Proof.
  induction messages as [|message messages IH]; intros st Hrun.
  - exists []. by destruct st.
  - unfold start_requests. simpl. rewrite !bind_run.
    rewrite start_monitor_spec, Hrun.
    assert (Hstep : ∀ text,
      ∃ new,
        for_each messages (λ message, _start_monitor message;; mret tt)
          (set_trace (EvSendMessage text :: trace st) st)
        = (Ret tt, set_trace (new ++ trace st) st)
        ∧ tasks_created new = 0).
    { intros text.
      destruct (IH (set_trace (EvSendMessage text :: trace st) st))
        as (new & Hnew & Hcount); [by destruct st|].
      exists (new ++ [EvSendMessage text]). unfold start_requests in Hnew.
      rewrite Hnew. split.
      - destruct st; simpl. unfold set_trace; simpl. by rewrite <- app_assoc.
      - by rewrite tasks_created_app, Hcount. }
    destruct (truthy _); simpl; apply Hstep.
Qed.

Lemma start_requests_count messages : ∀ st,
  ∃ new st',
    start_requests messages st = (Ret tt, st')
    ∧ trace st' = new ++ trace st
    ∧ tasks_created new ≤ 1.
Proof.
  induction messages as [|message messages IH]; intros st.
  - exists [], st. split; [done|]. split; [done|]. unfold tasks_created. simpl. lia.
  - unfold start_requests. simpl. rewrite !bind_run.
    rewrite start_monitor_spec.
    destruct (truthy _); [destruct (task_running st) eqn:Hrun|]; simpl.
    + destruct (start_requests_running messages
                  (set_trace (EvSendMessage "TamilBlasters auto-leech is already running."
                              :: trace st) st))
        as (new & Hnew & Hcount); [by destruct st|].
      unfold start_requests in Hnew. rewrite Hnew.
      eexists (new ++ [_]), _. split; [done|]. split.
      * destruct st; simpl. by rewrite <- app_assoc.
      * rewrite tasks_created_app, Hcount. unfold tasks_created. simpl. lia.
    + match goal with
      | |- context [for_each messages _ ?s] =>
          destruct (start_requests_running messages s) as (new & Hnew & Hcount);
            [done|]
      end.
      unfold start_requests in Hnew. rewrite Hnew.
      eexists (new ++ [_; _]), _. split; [done|]. split.
      * simpl. by rewrite <- app_assoc.
      * rewrite tasks_created_app, Hcount. unfold tasks_created. simpl. lia.
    + match goal with
      | |- context [for_each messages _ ?s] =>
          destruct (IH s) as (new & st' & Hnew & Htr & Hcount)
      end.
      unfold start_requests in Hnew. rewrite Hnew.
      eexists (new ++ [_]), st'. split; [done|]. split.
      * rewrite Htr. destruct st; simpl. by rewrite <- app_assoc.
      * rewrite tasks_created_app. unfold tasks_created at 2. simpl. lia.
Qed.

(** X12 (at most one task): however many start requests are served one
    after the other, from any state, at most one task is created; and
    none is when a task is already running, in which case the requests
    change nothing but the trace of replies. *)
Theorem start_requests_create_at_most_one_task (messages : list Message) (st : State) :
  (start_requests messages st).1 = Ret tt
  ∧ tasks_created (events_since st (start_requests messages st).2) ≤ 1
  ∧ (task_running st = true →
     tasks_created (events_since st (start_requests messages st).2) = 0
     ∧ ∃ new, (start_requests messages st).2 = set_trace (new ++ trace st) st).
Proof.
  destruct (start_requests_count messages st) as (new & st' & Hrun & Htr & Hcount).
  rewrite Hrun. simpl. split; [done|].
  split; [by rewrite (events_since_app _ _ _ Htr)|].
  intros Hrunning.
  destruct (start_requests_running messages st Hrunning) as (new' & Hrun' & Hcount').
  rewrite Hrun' in Hrun. injection Hrun as <-.
  split; [|eauto].
  rewrite (events_since_app _ _ new'); [done|]. by destruct st.
Qed.

(** ** The pace of the loop *)

Lemma sleeps_app a b : sleeps (a ++ b) = sleeps a + sleeps b.
Proof. unfold sleeps. by rewrite omap_app, length_app. Qed.

Lemma sleeps_none new : Forall no_sleep_event new → sleeps new = 0.
Proof.
  induction 1 as [|e new He _ IH]; [done|].
  destruct e; try done; exact IH.
Qed.

Lemma file_event_no_sleep W chat e :
  (∃ file_, file_event W chat file_ e) → no_sleep_event e.
Proof. intros [file_ He]. by destruct e. Qed.

Section Pace.
Context (W : World) (B : Builtins).

Lemma sleep_spec seconds st :
  ∃ new,
    trace (asyncio_sleep W seconds st).2 = new ++ trace st
    ∧ match (asyncio_sleep W seconds st).1 with
      | Ret _ => sleeps new = 1
      | Raise _ => sleeps new ≤ 1
      end.
Proof.
  destruct st as [cfg task ll topics cc cache clk tr].
  unfold asyncio_sleep, deliver_cancel. mrun.
  destruct task as [[tchat tdone [|]]|]; mrun.
  - exists []. split; [done|unfold sleeps; simpl; lia].
  - destruct (sleep_fault W clk) as [e|]; mrun;
      (exists [EvSleep seconds]; (split; [done|unfold sleeps; simpl; lia])).
  - destruct (sleep_fault W clk) as [e|]; mrun;
      (exists [EvSleep seconds]; (split; [done|unfold sleeps; simpl; lia])).
Qed.

Lemma crawl_no_sleep :
  steps (trace_step no_sleep_event)
    (try_except (_crawl_tbl W B) is_Exception (λ _, log LogCrawlError;; mret [])).
Proof.
  s_try.
  - apply emits_of_frame, frame_to_thread, frame_crawl_sync; done.
  - intros _. s_bind; [by apply emits_emit|]. intros _. s_ret.
Qed.

Lemma topics_no_sleep chat torrents :
  steps (trace_step no_sleep_event) (for_each torrents (process_topic W chat)).
Proof.
  s_for_each. intros torrent.
  eapply steps_mono; [|apply process_topic_events].
  intros st st'. apply trace_step_mono. apply file_event_no_sleep.
Qed.

Lemma poll_cycle_sleeps chat st :
  ∃ new,
    trace (poll_cycle W B chat st).2 = new ++ trace st
    ∧ match (poll_cycle W B chat st).1 with
      | Ret _ => sleeps new = 1
      | Raise _ => sleeps new ≤ 1
      end.
Proof.
  unfold poll_cycle. rewrite bind_run.
  destruct (crawl_no_sleep st) as (n1 & Hn1 & Hq1).
  destruct (try_except _ _ _ st) as [[torrents|e] s1]; simpl in *.
  2:{ exists n1. split; [done|]. rewrite (sleeps_none _ Hq1). lia. }
  rewrite bind_run.
  destruct (topics_no_sleep chat torrents s1) as (n2 & Hn2 & Hq2).
  destruct (for_each torrents _ s1) as [[[]|e] s2]; simpl in *.
  2:{ exists (n2 ++ n1). rewrite Hn2, Hn1, app_assoc. split; [done|].
      rewrite sleeps_app, (sleeps_none _ Hq1), (sleeps_none _ Hq2). lia. }
  destruct (sleep_spec _POLL_DELAY s2) as (n3 & Hn3 & Hc).
  exists (n3 ++ n2 ++ n1). rewrite Hn3, Hn2, Hn1, !app_assoc. split; [done|].
  rewrite <- app_assoc, !sleeps_app, (sleeps_none _ Hq1), (sleeps_none _ Hq2).
  destruct (asyncio_sleep W _POLL_DELAY s2).1; lia.
Qed.

Lemma monitor_loop_sleeps chat n : ∀ st,
  ∃ new,
    trace (monitor_loop W B n chat st).2 = new ++ trace st
    ∧ match (monitor_loop W B n chat st).1 with
      | Ret _ => sleeps new = n
      | Raise _ => sleeps new ≤ n
      end.
Proof.
  induction n as [|n IH]; intros st.
  - by exists [].
  - simpl. rewrite bind_run.
    destruct (poll_cycle_sleeps chat st) as (n1 & Hn1 & Hc1).
    destruct (poll_cycle W B chat st) as [[[]|e] s1]; simpl in *.
    2:{ exists n1. split; [done|]. lia. }
    destruct (IH s1) as (n2 & Hn2 & Hc2).
    exists (n2 ++ n1). rewrite Hn2, Hn1, app_assoc. split; [done|].
    rewrite sleeps_app. destruct (monitor_loop W B n chat s1).1; lia.
Qed.

End Pace.

(** X13 (one sleep per cycle): a run that is still going after [n] turns of
    its loop has begun exactly [n] sleeps, one at the end of each cycle,
    whatever was crawled, delivered or failed in between; a run that has
    ended within [n] turns has begun at most [n]. *)
Theorem one_sleep_per_cycle
    (W : World) (B : Builtins) (n : nat) (chat : ChatRef) (st : State) :
  match (_tamilblasters_monitor W B n chat st).1 with
  | Ret _ => sleeps (events_since st (_tamilblasters_monitor W B n chat st).2) = n
  | Raise _ => sleeps (events_since st (_tamilblasters_monitor W B n chat st).2) ≤ n
  end.
Proof.
  unfold _tamilblasters_monitor.
  destruct (monitor_loop_sleeps W B chat n st) as (new & Hnew & Hc).
  destruct (monitor_loop W B n chat st) as [[[]|e] s1]; simpl in *.
  - by rewrite (events_since_app _ _ _ Hnew).
  - destruct s1 as [cfg task ll topics cc cache clk tr]; simpl in *. subst tr.
    unfold monitor_finally, finish_task.
    destruct (is_CancelledError e); mrun;
      destruct (lock_wait_cancelled W clk); mrun.
    + rewrite (events_since_app _ _ (EvLog LogStopped :: new)) by done.
      by change (sleeps new ≤ n).
    + rewrite (events_since_app _ _ (EvLog LogStopped :: new)) by done.
      by change (sleeps new ≤ n).
    + by rewrite (events_since_app _ _ new).
    + by rewrite (events_since_app _ _ new).
Qed.

(** ** Names: delivery file names and mentions *)

Section Names.

Local Abbreviation us := "_"%char.

Lemma re_sub_unsafe_safe name b :
  PyStr.all safe_char name = true → re_sub_unsafe b name = name.
Proof.
  revert b. induction name as [|c rest IH]; intros b; simpl; [done|].
  intros [Hc Hrest]%andb_prop. by rewrite Hc, IH.
Qed.

Lemma lstrip_id c s : PyStr.first s ≠ Some c → PyStr.lstrip c s = s.
Proof.
  destruct s as [|a s]; simpl; [done|]. intros Ha.
  destruct (PyStr.eqc a c) eqn:E; [|done].
  apply eqc_spec in E. by subst.
Qed.

Lemma rstrip_id c s : PyStr.last s ≠ Some c → PyStr.rstrip c s = s.
Proof.
  induction s as [|a s IH]; [done|].
  intros Hlast. simpl. destruct s as [|a' s'].
  - simpl in *. destruct (PyStr.eqc a c) eqn:E; [|done].
    apply eqc_spec in E. by subst.
  - rewrite IH by exact Hlast. by rewrite andb_false_r.
Qed.

Lemma sanitize_safe_name name :
  name ≠ "" → PyStr.all safe_char name = true →
  PyStr.first name ≠ Some us → PyStr.last name ≠ Some us →
  _sanitize_filename name = name +:+ ".torrent".
Proof.
  intros Hne Hall Hfirst Hlast. unfold _sanitize_filename.
  apply String.eqb_neq in Hne. rewrite Hne.
  rewrite re_sub_unsafe_safe by done. unfold PyStr.strip.
  rewrite lstrip_id, rstrip_id by done. by rewrite Hne.
Qed.

Lemma append_cons x (a b : string) : String x a +:+ b = String x (a +:+ b).
Proof. done. Qed.

Lemma append_nil (b : string) : "" +:+ b = b.
Proof. done. Qed.

Lemma append_assoc (a b c : string) : (a +:+ b) +:+ c = a +:+ (b +:+ c).
Proof.
  induction a as [|x a IH]; [done|]. rewrite !append_cons. by f_equal.
Qed.

Lemma replace_char_app old new a b :
  replace_char old new (a +:+ b) = replace_char old new a +:+ replace_char old new b.
Proof.
  induction a as [|c a IH]; [done|].
  rewrite append_cons. cbn [replace_char]. by rewrite IH, append_assoc.
Qed.

Lemma replace_both name :
  replace_char "]"%char "\]" (replace_char "["%char "\[" name) = escape_each name.
Proof.
  induction name as [|c rest IH]; [done|]. cbn [replace_char escape_each].
  rewrite replace_char_app, IH. f_equal.
  destruct (PyStr.eqc c "[") eqn:E1; [done|].
  cbn [replace_char]. by destruct (PyStr.eqc c "]").
Qed.

Lemma escape_each_cons c rest :
  escape_each (String c rest)
  = if is_bracket c then String "\" (String c (escape_each rest))
    else String c (escape_each rest).
Proof.
  cbn [escape_each]. unfold is_bracket.
  destruct (PyStr.eqc c "[") eqn:E1.
  { apply eqc_spec in E1 as ->. done. }
  destruct (PyStr.eqc c "]") eqn:E2; [|done].
  apply eqc_spec in E2 as ->. done.
Qed.

Lemma escape_each_escaped name : ∀ b, brackets_escaped b (escape_each name) = true.
Proof.
  induction name as [|c rest IH]; intros b; [done|].
  rewrite escape_each_cons. destruct (is_bracket c) eqn:E.
  - cbn [brackets_escaped]. rewrite E. simpl. exact (IH _).
  - cbn [brackets_escaped]. rewrite E. simpl. exact (IH _).
Qed.

Lemma escape_each_first name :
  match escape_each name with
  | "" => name = ""
  | String d _ => is_bracket d = false
  end.
Proof.
  destruct name as [|c rest]; [done|].
  rewrite escape_each_cons. by destruct (is_bracket c) eqn:E.
Qed.

Lemma unescape_escape_each name : unescape_brackets (escape_each name) = name.
Proof.
  induction name as [|c rest IH]; [done|].
  rewrite escape_each_cons. destruct (is_bracket c) eqn:E.
  - cbn [unescape_brackets]. rewrite E. simpl. by rewrite IH.
  - pose proof (escape_each_first rest) as Hfirst.
    cbn [unescape_brackets].
    destruct (escape_each rest) as [|d tail] eqn:Hrest.
    + by subst.
    + rewrite Hfirst, andb_false_r. by rewrite IH.
Qed.

End Names.

(** X14 (safe titles are kept): a title that is not empty, has only
    characters of [[0-9A-Za-z._-]] and neither begins nor ends with an
    underscore is delivered under its own name, with [".torrent"]
    appended. *)
Theorem safe_title_is_kept (name : string) :
  name ≠ "" →
  PyStr.all safe_char name = true →
  PyStr.first name ≠ Some "_"%char →
  PyStr.last name ≠ Some "_"%char →
  _sanitize_filename name = name +:+ ".torrent".
Proof. apply sanitize_safe_name. Qed.

Lemma safe_title_is_kept_witness :
  _sanitize_filename "Movie.2024_1080p-x264" = "Movie.2024_1080p-x264" +:+ ".torrent".
Proof. by apply safe_title_is_kept. Defined.

(** X15 (sanitizing is stable): the stem of a delivery file name is itself
    a title that [_sanitize_filename] keeps, so sanitizing a stem again
    gives the same file name: no second underscore run, no new trimming. *)
Theorem sanitize_filename_is_stable (name : string) :
  ∃ stem,
    _sanitize_filename name = stem +:+ ".torrent"
    ∧ _sanitize_filename stem = _sanitize_filename name.
Proof.
  unfold _sanitize_filename at 1 3.
  destruct (String.eqb name ""); [by exists "tbl_torrent"|].
  destruct (String.eqb (PyStr.strip "_" (re_sub_unsafe false name)) "") eqn:E;
    [by exists "tbl_torrent"|].
  eexists. split; [done|]. apply sanitize_safe_name.
  - by apply String.eqb_neq.
  - apply all_strip_re_sub.
  - apply first_rstrip, first_lstrip.
  - apply last_rstrip.
Qed.

(** X16 (markdown mention): for a markdown style, [mention] returns a link
    [[safe_name](tg://user?id=<id>)] in whose text every bracket of the
    name comes right after a backslash, and from which the name is read
    back unchanged: the two replacements lose nothing and do not touch
    each other's output. *)
Theorem markdown_mention_escapes_brackets
    (str_lower : string → string) (self : AutoUser) (style : option string) :
  str_lower (default "" style) ∈ ["markdown"; "markdownv2"; "md"; "mdv2"] →
  ∃ safe_name,
    mention str_lower self style
    = "[" +:+ safe_name +:+ "](tg://user?id=" +:+ pretty (user_id self) +:+ ")"
    ∧ brackets_escaped false safe_name = true
    ∧ unescape_brackets safe_name = first_name self.
Proof.
  intros Hstyle. exists (escape_each (first_name self)).
  split; [|split; [apply escape_each_escaped|apply unescape_escape_each]].
  unfold mention.
  replace (match style with
           | Some s => if String.eqb s "" then "" else s
           | None => ""
           end) with (default "" style).
  2:{ destruct style as [s|]; [|done]. simpl.
      destruct (String.eqb s "") eqn:E; [|done]. by apply String.eqb_eq in E. }
  rewrite replace_both.
  set_unfold in Hstyle.
  destruct Hstyle as [->|[->|[->|[->|[]]]]]; done.
Qed.

Lemma markdown_mention_witness :
  ∃ safe_name,
    mention (λ s, s) (_AutoUser 7 (Some "a[b]")) (Some "md")
    = "[" +:+ safe_name +:+ "](tg://user?id=" +:+ pretty 7%Z +:+ ")"
    ∧ brackets_escaped false safe_name = true
    ∧ unescape_brackets safe_name = "a[b]".
Proof.
  apply (markdown_mention_escapes_brackets (λ s, s) (_AutoUser 7 (Some "a[b]"))
           (Some "md")).
  apply (bool_decide_unpack _). by vm_compute.
Defined.
